(** * Package sh of mage: running external commands

    A shallow embedding of [sh/cmd.go]: variable expansion, glob expansion,
    process launch and the classification of its outcome, together with the
    properties the specification states about them.

    Go strings are modelled as [string], [int] as [Z], [map[string]string] as
    [gmap string string], a [[]string] slice as a window on a backing array
    kept in a heap, and every effect of a call (writes through a slice, bytes
    delivered to an [io.Writer], commands handed to the operating system,
    log lines) as a change of an explicit [State]. *)

From stdpp Require Import gmap strings list pretty.
From Stdlib Require Import ZArith Ascii String Lia.

Open Scope string_scope.
Open Scope list_scope.
Open Scope Z_scope.

(** ** Strings of the Go standard library *)

Module Str.

Fixpoint drop (n : nat) (s : string) : string :=
  match n, s with
  | O, _ => s
  | S n', String _ r => drop n' r
  | S _, EmptyString => EmptyString
  end.

Fixpoint take (n : nat) (s : string) : string :=
  match n, s with
  | S n', String c r => String c (take n' r)
  | _, _ => EmptyString
  end.

(** Position of the first occurrence of [c] in [s]. *)
Fixpoint index (c : ascii) (s : string) : option nat :=
  match s with
  | EmptyString => None
  | String d r => if Ascii.eqb d c then Some O else S <$> index c r
  end.

(** [strings.HasSuffix]. *)
Definition HasSuffix (s suffix : string) : bool :=
  (String.length suffix <=? String.length s)%nat
  && String.eqb (drop (String.length s - String.length suffix) s) suffix.

(** [strings.TrimSuffix]: [s] without the trailing [suffix], or [s] itself
    when it does not end with [suffix]. *)
Definition TrimSuffix (s suffix : string) : string :=
  if HasSuffix s suffix
  then take (String.length s - String.length suffix) s
  else s.

(** [strings.Join]. *)
Fixpoint Join (elems : list string) (sep : string) : string :=
  match elems with
  | [] => EmptyString
  | [e] => e
  | e :: rest => e +:+ sep +:+ Join rest sep
  end.

End Str.

(** ** [os.Expand] of the Go standard library *)

Module Env.

Definition isShellSpecialVar (c : ascii) : bool :=
  existsb (Ascii.eqb c)
    ["*"; "#"; "$"; "@"; "!"; "?"; "-";
     "0"; "1"; "2"; "3"; "4"; "5"; "6"; "7"; "8"; "9"]%char.

Definition isAlphaNum (c : ascii) : bool :=
  let n := nat_of_ascii c in
  Ascii.eqb c "_"
  || ((48 <=? n) && (n <=? 57))%nat
  || ((97 <=? n) && (n <=? 122))%nat
  || ((65 <=? n) && (n <=? 90))%nat.

(** The longest prefix of [s] made of letters, digits and underscores. *)
Fixpoint alnumPrefix (s : string) : string :=
  match s with
  | EmptyString => EmptyString
  | String c r => if isAlphaNum c then String c (alnumPrefix r) else EmptyString
  end.

(** [len(s) > 2 && isShellSpecialVar(s[1]) && s[2] == '}'], where [r] is
    [s] without its opening brace. *)
Definition specialInBraces (r : string) : bool :=
  match r with
  | String c1 (String "}" _) => isShellSpecialVar c1
  | _ => false
  end.

(** [getShellName s] is the name that begins [s] and the number of bytes
    consumed to extract it; [s] is what follows a dollar sign and is not
    empty. *)
Definition getShellName (s : string) : string * nat :=
  match s with
  | EmptyString => (EmptyString, O)
  | String "{" r =>
      if specialInBraces r then (Str.take 1 r, 3%nat)
      else
        match Str.index "}" r with
        | Some O => (EmptyString, 2%nat)
        | Some k => (Str.take k r, S (S k))
        | None => (EmptyString, 1%nat)
        end
  | String c r =>
      if isShellSpecialVar c then (String c EmptyString, 1%nat)
      else let name := alnumPrefix s in (name, String.length name)
  end.

(** One pass of the scanning loop of [os.Expand] over what is left of the
    input. Every iteration consumes at least one byte, so the length of the
    input is enough fuel. *)
Fixpoint expandLoop (fuel : nat) (mapping : string -> string) (s : string) : string :=
  match fuel with
  | O => s
  | S fuel' =>
      match s with
      | EmptyString => EmptyString
      | String c rest =>
          if Ascii.eqb c "$" && negb (String.eqb rest EmptyString) then
            let '(name, w) := getShellName rest in
            let piece :=
              if String.eqb name EmptyString && (0 <? w)%nat then EmptyString
              else if String.eqb name EmptyString then String c EmptyString
              else mapping name in
            piece +:+ expandLoop fuel' mapping (Str.drop w rest)
          else String c (expandLoop fuel' mapping rest)
      end
  end.

(** [os.Expand s mapping] replaces [${var}] or [$var] in [s] by
    [mapping var]. *)
Definition Expand (s : string) (mapping : string -> string) : string :=
  expandLoop (String.length s) mapping s.

#[global] Arguments Expand : simpl never.

End Env.

(** ** Wait statuses, as package [syscall] has them on Unix *)

Module WaitStatus.

(** A [syscall.WaitStatus] is a [uint32]. *)
Definition mask : Z := 0x7F.
Definition core : Z := 0x80.
Definition exited : Z := 0x00.
Definition stopped : Z := 0x7F.
Definition shift : Z := 8.

Definition Exited (w : Z) : bool := Z.land w mask =? exited.

Definition Signaled (w : Z) : bool :=
  negb (Z.land w mask =? stopped) && negb (Z.land w mask =? exited).

Definition ExitStatus (w : Z) : Z :=
  if negb (Exited w) then -1
  else Z.land (Z.shiftr w shift) 0xFF.

(** The status [wait4] reports for a process that called [exit(n)]. *)
Definition ofExit (n : Z) : Z := Z.shiftl (Z.land n 0xFF) shift.

(** The status reported for a process terminated by signal [sig]. *)
Definition ofSignal (sig : Z) : Z := Z.land sig mask.

End WaitStatus.

(** ** Errors *)

(** The dynamic types an [error] reaching this package can have. The type
    assertions of the source tell them apart. *)
Inductive error : Type :=
  | ExitError (status : Z)
      (** [*exec.ExitError]: the process was started and waited for, and did
          not succeed; [status] is what its [Sys()] returns. *)
  | LaunchError (msg : string)
      (** what [exec.Cmd.Start] returns when the program cannot be started:
          [*exec.Error], [*fs.PathError]. *)
  | fatalErr (code : Z) (msg : string)
      (** the failure built by [mg.Fatalf]; it has the method
          [ExitStatus() int]. *)
  | errorString (msg : string)
      (** [errors.New] and [fmt.Errorf] values. *).

(** [filepath.ErrBadPattern]. *)
Definition ErrBadPattern : error := errorString "syntax error in pattern".

(** Modelled from the spec: [mg.Fatalf] of package [mg]. It builds the
    structured "exit code N" failure, which carries that code and a message
    naming the command and its arguments (sections 4.1 and 7). *)
Definition mg_Fatalf (code : Z) (msg : string) : error := fatalErr code msg.

(** [fmt.Errorf] applied to an already formatted message. *)
Definition fmt_Errorf (msg : string) : error := errorString msg.

(** The type assertion [err.(exitStatus)]: the value and whether it holds. *)
Definition asExitStatus (e : error) : option Z :=
  match e with
  | fatalErr code _ => Some code
  | _ => None
  end.

(** The type assertion of [err] to a pointer to [exec.ExitError]. *)
Definition asExitError (e : error) : option Z :=
  match e with
  | ExitError w => Some w
  | _ => None
  end.

(** ** The world around a call *)

(** What became of the attempt to run a command. *)
Inductive Outcome : Type :=
  | Waited (status : Z) (out err : string)
      (** started and reaped: its wait status, and all it wrote to its
          standard output and standard error *)
  | StartFailed (msg : string)
      (** never started; [msg] is the text of the operating system's error *).

(** Everything a call reads from its surroundings and does not change. *)
Record Host : Type := {
  (** the environment variables of this process *)
  environ : gmap string string;
  (** [filepath.Glob] on the file system as it is; [None] stands for
      [ErrBadPattern], the only error it returns *)
  Glob : string -> option (list string);
  (** Modelled from the spec: [mg.Verbose] of package [mg], the ambient
      verbose flag supplied by the build-task framework (section 6). *)
  Verbose : bool;
  (** the [%q] verb of package [fmt] *)
  Quote : string -> string;
  (** the operating system running a program given its path, arguments and
      environment *)
  spawn : string -> list string -> list string -> Outcome;
  (** the [String] method of [os.ProcessState], the text of an
      [exec.ExitError] *)
  ProcessState_String : Z -> string
}.

(** An [io.Writer]: [None] is the nil interface, [Some w] names a stream. *)
Definition Writer : Type := option nat.
Definition os_Stdout : Writer := Some 1%nat.
Definition os_Stderr : Writer := Some 2%nat.

(** An [*exec.Cmd], with the fields this package fills in. [Stdin] is always
    [os.Stdin] and is left out. *)
Record Cmd : Type := {
  Path : string;
  Args : list string;
  CmdEnv : list string;
  Stdout : Writer;
  Stderr : Writer
}.

(** A [[]string]: [len] elements from index [off] of the backing array stored
    at [base], with room for [cap]. *)
Record Slice : Type := {
  base : nat;
  off : nat;
  len : nat;
  cap : nat
}.

Record State : Type := {
  (** the backing arrays of the [[]string] slices *)
  heap : gmap nat (list string);
  (** what each stream has received so far *)
  streams : gmap nat string;
  (** the commands on which [Run] was called, oldest first *)
  execs : list Cmd;
  (** the lines given to [log.Println], oldest first *)
  logs : list string
}.

Definition setHeap (h : gmap nat (list string)) (st : State) : State :=
  {| heap := h; streams := streams st; execs := execs st; logs := logs st |}.
Definition setStreams (s : gmap nat string) (st : State) : State :=
  {| heap := heap st; streams := s; execs := execs st; logs := logs st |}.
Definition setExecs (e : list Cmd) (st : State) : State :=
  {| heap := heap st; streams := streams st; execs := e; logs := logs st |}.
Definition setLogs (l : list string) (st : State) : State :=
  {| heap := heap st; streams := streams st; execs := execs st; logs := l |}.

(** ** A state monad for the effects *)

Definition M (A : Type) : Type := State -> A * State.

Definition ret {A} (a : A) : M A := fun st => (a, st).
Definition bind {A B} (m : M A) (k : A -> M B) : M B :=
  fun st => let '(a, st') := m st in k a st'.
Definition gets {A} (f : State -> A) : M A := fun st => (f st, st).
Definition modify (f : State -> State) : M unit := fun st => (tt, f st).

#[global] Instance M_ret : MRet M := @ret.
#[global] Instance M_bind : MBind M := fun A B k m => bind m k.

(** [for i := range n { body i }] *)
Fixpoint forRange (from n : nat) (body : nat -> M unit) : M unit :=
  match n with
  | O => ret tt
  | S n' => body from ;; forRange (S from) n' body
  end.

(** ** Slices *)

Module Sl.

(** The backing array of [s]. *)
Definition array (h : gmap nat (list string)) (s : Slice) : list string :=
  default [] (h !! base s).

(** The elements of [s] in heap [h], as [range s] visits them. *)
Definition read (h : gmap nat (list string)) (s : Slice) : list string :=
  take (len s) (drop (off s) (array h s)).

Definition elems (s : Slice) : M (list string) :=
  gets (fun st => read (heap st) s).

(** [s[i]] *)
Definition get (s : Slice) (i : nat) : M string :=
  gets (fun st => default EmptyString (array (heap st) s !! (off s + i)%nat)).

(** [s[i] = v] *)
Definition set (s : Slice) (i : nat) (v : string) : M unit :=
  modify (fun st => setHeap (alter (fun a => <[(off s + i)%nat := v]> a) (base s) (heap st)) st).

(** A slice that owns a new array holding [xs]: what a call with the
    arguments written out, or [[]string{...}], allocates. *)
Definition make (xs : list string) : M Slice :=
  fun st =>
    let b := fresh (dom (heap st)) in
    ({| base := b; off := O; len := List.length xs; cap := List.length xs |},
     setHeap (<[b := xs]> (heap st)) st).

(** [append(s, xs...)]: in place when the capacity allows it, in a new
    array otherwise. The new array is given exactly the room needed; Go
    may give it more, which nothing here observes. *)
Definition append (s : Slice) (xs : list string) : M Slice :=
  if (len s + List.length xs <=? cap s)%nat then
    modify (fun st =>
      setHeap (alter (list_inserts (off s + len s)%nat xs) (base s) (heap st)) st) ;;
    ret {| base := base s; off := off s; len := (len s + List.length xs)%nat; cap := cap s |}
  else
    old ← elems s; make (old ++ xs).

End Sl.

(** A double quote and a newline, as one-byte strings. *)
Definition dquote : string := String "034"%char EmptyString.
Definition newline : string := String "010"%char EmptyString.

(** ** The package *)

Section Sh.

Context (host : Host).

(** [os.Getenv]: the value of the variable, empty when it is not set. *)
Definition os_Getenv (key : string) : string :=
  default EmptyString (environ host !! key).

(** [os.Environ]: the environment as [key=value] strings. *)
Definition os_Environ : list string :=
  (fun kv : string * string => kv.1 +:+ "=" +:+ kv.2) <$> map_to_list (environ host).

(** The method [Error] of an error value. *)
Definition Error (e : error) : string :=
  match e with
  | ExitError w => ProcessState_String host w
  | LaunchError msg => msg
  | fatalErr _ msg => msg
  | errorString msg => msg
  end.

(** Bytes reaching an [io.Writer]; a nil writer discards them. *)
Definition write (w : Writer) (data : string) : M unit :=
  match w with
  | None => ret tt
  | Some id =>
      modify (fun st =>
        setStreams (<[id := default EmptyString (streams st !! id) +:+ data]> (streams st)) st)
  end.

(** [log.Println]: the operands separated by spaces make one line. *)
Definition log_Println (operands : list string) : M unit :=
  modify (fun st => setLogs (logs st ++ [Str.Join operands " "]) st).

(** [&bytes.Buffer{}]: a new, empty stream. *)
Definition newBuffer : M nat :=
  fun st =>
    let b := fresh ({[1%nat; 2%nat]} ∪ dom (streams st)) in
    (b, setStreams (<[b := EmptyString]> (streams st)) st).

(** [buf.String()] *)
Definition Buffer_String (b : nat) : M string :=
  gets (fun st => default EmptyString (streams st !! b)).

(** [c.Run()] of package [os/exec]: start the command and wait for it. The
    error is nil when the command ran and exited with status zero, an
    [ExitError] when it started and did not succeed, and the start error
    otherwise. Failures while copying the streams are left out. *)
Definition Cmd_Run (c : Cmd) : M (option error) :=
  modify (fun st => setExecs (execs st ++ [c]) st) ;;
  match spawn host (Path c) (Args c) (CmdEnv c) with
  | Waited w out err =>
      write (Stdout c) out ;;
      write (Stderr c) err ;;
      ret (if WaitStatus.ExitStatus w =? 0 then None else Some (ExitError w))
  | StartFailed msg => ret (Some (LaunchError msg))
  end.

(** [CmdRan]: nil, or an [ExitError] of a command that exited. *)
Definition CmdRan (err : option error) : bool :=
  match err with
  | None => true
  | Some e =>
      match asExitError e with
      | Some ee => WaitStatus.Exited ee
      | None => false
      end
  end.

(** [ExitStatus]: the exit status an error carries, 0 for nil and 1 for an
    error that carries none. What [Sys()] returns for an [ExitError] is a
    [syscall.WaitStatus], which has the method [ExitStatus() int]. *)
Definition ExitStatus (err : option error) : Z :=
  match err with
  | None => 0
  | Some e =>
      match asExitStatus e with
      | Some code => code
      | None =>
          match asExitError e with
          | Some ee => WaitStatus.ExitStatus ee
          | None => 1
          end
      end
  end.

(** The loop of [expandGlob], [result] being what it has appended so far. *)
Fixpoint expandGlobFrom (result value : list string) : list string + error :=
  match value with
  | [] => inl result
  | v :: rest =>
      match Glob host v with
      | None => inr ErrBadPattern
      | Some matches =>
          if (0 <? List.length matches)%nat
          then expandGlobFrom (result ++ matches) rest
          else expandGlobFrom (result ++ [v]) rest
      end
  end.

Definition expandGlob (value : list string) : list string + error :=
  expandGlobFrom [] value.

(** The command [run] builds: [exec.Command(cmd, expanded...)] with its
    environment and streams. *)
Definition command (env : gmap string string) (stdout stderr : Writer)
    (cmd : string) (expanded : list string) : Cmd :=
  {| Path := cmd;
     Args := cmd :: expanded;
     CmdEnv := foldl (fun acc (kv : string * string) => acc ++ [kv.1 +:+ "=" +:+ kv.2])
                 os_Environ (map_to_list env);
     Stdout := stdout;
     Stderr := stderr |}.

Definition run (env : gmap string string) (stdout stderr : Writer)
    (cmd : string) (args : Slice) : M (bool * Z * option error) :=
  value ← Sl.elems args;
  match expandGlob value with
  | inr err => ret (false, 0, Some err)
  | inl expanded =>
      let c := command env stdout stderr cmd expanded in
      let quoted := Quote host <$> expanded in
      (if Verbose host
       then log_Println ["exec:"; cmd; Str.Join quoted " "]
       else ret tt) ;;
      err ← Cmd_Run c;
      ret (CmdRan err, ExitStatus err, err)
  end.

(** The mapping [Exec] expands with: the overrides first, then the
    environment of the process. *)
Definition expand (env : gmap string string) (s : string) : string :=
  match env !! s with
  | Some s2 => s2
  | None => os_Getenv s
  end.

Definition Exec (env : gmap string string) (stdout stderr : Writer)
    (cmd : string) (args : Slice) : M (bool * option error) :=
  let cmd := Env.Expand cmd (expand env) in
  forRange 0 (len args) (fun i =>
    a ← Sl.get args i;
    Sl.set args i (Env.Expand a (expand env))) ;;
  r ← run env stdout stderr cmd args;
  let '(ran, code, err) := (r : bool * Z * option error) in
  match err with
  | None => ret (true, None)
  | Some e =>
      argv ← Sl.elems args;
      if ran then
        ret (ran, Some (mg_Fatalf code
               ("running " +:+ dquote +:+ cmd +:+ " " +:+ Str.Join argv " " +:+ dquote
                +:+ " failed with exit code " +:+ pretty code)))
      else
        ret (ran, Some (fmt_Errorf
               ("failed to run " +:+ dquote +:+ cmd +:+ " " +:+ Str.Join argv " "
                +:+ ": " +:+ Error e +:+ dquote)))
  end.

Definition RunWith (env : gmap string string) (cmd : string) (args : Slice)
    : M (option error) :=
  let output := if Verbose host then os_Stdout else None in
  r ← Exec env output os_Stderr cmd args;
  let err := r.2 in
  ret err.

Definition Run (cmd : string) (args : Slice) : M (option error) :=
  RunWith ∅ cmd args.

Definition RunV (cmd : string) (args : Slice) : M (option error) :=
  r ← Exec ∅ os_Stdout os_Stderr cmd args;
  let err := r.2 in
  ret err.

Definition RunWithV (env : gmap string string) (cmd : string) (args : Slice)
    : M (option error) :=
  r ← Exec env os_Stdout os_Stderr cmd args;
  let err := r.2 in
  ret err.

Definition OutputWith (env : gmap string string) (cmd : string) (args : Slice)
    : M (string * option error) :=
  buf ← newBuffer;
  r ← Exec env (Some buf) os_Stderr cmd args;
  let err := r.2 in
  s ← Buffer_String buf;
  ret (Str.TrimSuffix s newline, err).

Definition Output (cmd : string) (args : Slice) : M (string * option error) :=
  buf ← newBuffer;
  r ← Exec ∅ (Some buf) os_Stderr cmd args;
  let err := r.2 in
  s ← Buffer_String buf;
  ret (Str.TrimSuffix s newline, err).

(** [RunCmd cmd args] is the closure; [args2] is what it is called with. *)
Definition RunCmd (cmd : string) (args : Slice) : Slice -> M (option error) :=
  fun args2 =>
    extra ← Sl.elems args2;
    all ← Sl.append args extra;
    Run cmd all.

Definition OutCmd (cmd : string) (args : Slice) : Slice -> M (string * option error) :=
  fun args2 =>
    extra ← Sl.elems args2;
    all ← Sl.append args extra;
    Output cmd all.

End Sh.

(** ** Vocabulary of the statements *)

Module Spec.

Import Env.

Fixpoint allChars (p : ascii -> bool) (s : string) : bool :=
  match s with
  | EmptyString => true
  | String c r => p c && allChars p r
  end.

(** A variable name as written after a dollar sign without braces: letters,
    digits and underscores, the first of which is not a digit. *)
Definition isName (name : string) : bool :=
  match name with
  | EmptyString => false
  | String c _ => negb (isShellSpecialVar c) && allChars isAlphaNum name
  end.

(** What follows a name does not continue it. *)
Definition endsName (post : string) : bool :=
  match post with
  | EmptyString => true
  | String c _ => negb (isAlphaNum c)
  end.

Definition noDollar (s : string) : bool :=
  allChars (fun c => negb (Ascii.eqb c "$")) s.

(** [a] with the [n] elements from index [i] replaced by their images
    under [f]. *)
Definition mapRange (f : string -> string) (i n : nat) (a : list string) : list string :=
  take i a ++ (f <$> take n (drop i a)) ++ drop (i + n) a.

(** What one argument becomes under glob expansion, as the specification
    words it: the matches when there are some, the argument itself when
    there are none. *)
Definition globArg (host : Host) (v : string) : list string :=
  match Glob host v with
  | Some (m :: ms) => m :: ms
  | _ => [v]
  end.

(** Every pattern of the list is well formed. *)
Definition wellFormed (host : Host) (value : list string) : bool :=
  forallb (fun v => bool_decide (is_Some (Glob host v))) value.

(** The variable expansion [Exec] applies to a string. *)
Definition expandVar (host : Host) (env : gmap string string) (s : string) : string :=
  Expand s (expand host env).

(** The heap once the arguments of [args] are expanded in place. *)
Definition expandedHeap (host : Host) (env : gmap string string) (args : Slice)
    (h : gmap nat (list string)) : gmap nat (list string) :=
  alter (mapRange (expandVar host env) (off args) (len args)) (base args) h.

(** The state [Exec] reaches before it calls [run]. *)
Definition prepared (host : Host) (env : gmap string string) (args : Slice)
    (st : State) : State :=
  setHeap (expandedHeap host env args (heap st)) st.

(** The state once the output [out] and [err] of a started command [c]
    has reached its streams. *)
Definition delivered (c : Cmd) (out err : string) (st : State) : State :=
  (write (Stderr c) err (write (Stdout c) out st).2).2.

(** The state once [run] has logged the command line, which it does in
    verbose mode. *)
Definition announced (host : Host) (cmd : string) (expanded : list string)
    (st : State) : State :=
  if Verbose host
  then setLogs (logs st ++ [Str.Join ["exec:"; cmd; Str.Join (Quote host <$> expanded) " "] " "]) st
  else st.

(** What the operating system makes of a command. *)
Definition outcome (host : Host) (c : Cmd) : Outcome :=
  spawn host (Path c) (Args c) (CmdEnv c).

(** The message of the failure for a command that exited with [code]. *)
Definition exitMessage (cmd : string) (argv : list string) (code : Z) : string :=
  "running " +:+ dquote +:+ cmd +:+ " " +:+ Str.Join argv " " +:+ dquote
  +:+ " failed with exit code " +:+ pretty code.

(** The message of the failure for a command that did not run; [text] is
    the text of the underlying error. *)
Definition launchMessage (cmd : string) (argv : list string) (text : string) : string :=
  "failed to run " +:+ dquote +:+ cmd +:+ " " +:+ Str.Join argv " "
  +:+ ": " +:+ text +:+ dquote.

(** The errors that say the process never started. *)
Definition neverStarted (e : error) : bool :=
  match e with
  | LaunchError _ => true
  | _ => false
  end.

(** The streams once [data] has reached the writer [w]. *)
Definition received (w : Writer) (data : string) (s : gmap nat string) : gmap nat string :=
  match w with
  | None => s
  | Some id => <[id := default EmptyString (s !! id) +:+ data]> s
  end.

(** [s] lies within an array of the heap [h]. *)
Definition sliceOk (h : gmap nat (list string)) (s : Slice) : bool :=
  match h !! base s with
  | Some a => (off s + cap s <=? List.length a)%nat && (len s <=? cap s)%nat
  | None => false
  end.

(** The line [run] logs in verbose mode. *)
Definition logLine (host : Host) (cmd : string) (expanded : list string) : string :=
  Str.Join ["exec:"; cmd; Str.Join (Quote host <$> expanded) " "] " ".

(** The overrides as [key=value] entries, in the order [range] visits
    them. *)
Definition overrides (env : gmap string string) : list string :=
  (fun kv : string * string => kv.1 +:+ "=" +:+ kv.2) <$> map_to_list env.

End Spec.

(** ** A sample world *)

Module Demo.

(** Globbing in a directory holding [a.go] and [b.go]. *)
Definition glob (pattern : string) : option (list string) :=
  if String.eqb pattern "*.go" then Some ["a.go"; "b.go"]
  else if String.eqb pattern "[" then None
  else if String.eqb pattern "a.go" then Some ["a.go"]
  else Some [].

(** [true] exits with 0, [false] with 1, [exit3] with 3, [echo] prints its
    arguments, [sleeper] is killed by signal 9, anything else is missing. *)
Definition os (path : string) (args env : list string) : Outcome :=
  if String.eqb path "true" then Waited (WaitStatus.ofExit 0) EmptyString EmptyString
  else if String.eqb path "false" then Waited (WaitStatus.ofExit 1) EmptyString EmptyString
  else if String.eqb path "exit3" then Waited (WaitStatus.ofExit 3) EmptyString "bye"
  else if String.eqb path "echo"
  then Waited (WaitStatus.ofExit 0) (Str.Join (tail args) " " +:+ newline) EmptyString
  else if String.eqb path "sleeper" then Waited (WaitStatus.ofSignal 9) EmptyString EmptyString
  else StartFailed ("exec: " +:+ path +:+ ": executable file not found in $PATH").

Definition host : Host :=
  {| environ := {[ "FOO" := "baz"; "HOME" := "/root"; "X" := "$Y"; "Y" := "secret" ]};
     Glob := glob;
     Verbose := false;
     Quote := fun s => dquote +:+ s +:+ dquote;
     spawn := os;
     ProcessState_String := fun w =>
       if WaitStatus.Exited w then "exit status " +:+ pretty (WaitStatus.ExitStatus w)
       else "signal: killed" |}.

Definition empty : State :=
  {| heap := ∅; streams := ∅; execs := []; logs := [] |}.

(** The same world in verbose mode. *)
Definition loud : Host :=
  {| environ := environ host;
     Glob := glob;
     Verbose := true;
     Quote := Quote host;
     spawn := os;
     ProcessState_String := ProcessState_String host |}.

(** The state and the slice of a caller that holds three arguments. *)
Definition args : Slice := (Sl.make ["$FOO"; "*.go"; "*.xyz"] empty).1.
Definition state : State := (Sl.make ["$FOO"; "*.go"; "*.xyz"] empty).2.

(** The same with a malformed pattern among them. *)
Definition badArgs : Slice := (Sl.make ["$HOME"; "["] empty).1.
Definition badState : State := (Sl.make ["$HOME"; "["] empty).2.

(** The failure [Exec] returns when [exit3] is run on [args]. *)
Definition exit3Error : error :=
  mg_Fatalf 3 (Spec.exitMessage "exit3" ["baz"; "*.go"; "*.xyz"] 3).

(** A call with its arguments written out. *)
Definition call {A} (f : Slice -> M A) (args : list string) : M A :=
  s ← Sl.make args; f s.

End Demo.


(** * Properties *)

(** ** Strings *)

Module StrFacts.

Lemma app_nil_l (t : string) : EmptyString +:+ t = t.
Proof. reflexivity. Qed.

Lemma app_cons (c : ascii) (s t : string) : String c s +:+ t = String c (s +:+ t).
Proof. reflexivity. Qed.

Ltac norm := simpl; rewrite ?app_cons, ?app_nil_l; simpl.

Lemma length_app (s t : string) :
  String.length (s +:+ t) = (String.length s + String.length t)%nat.
Proof. induction s as [|c s IH]; norm; [reflexivity | now rewrite IH]. Qed.

Lemma drop_app_length (s t : string) : Str.drop (String.length s) (s +:+ t) = t.
Proof. induction s as [|c s IH]; norm; [reflexivity | exact IH]. Qed.

Lemma drop_app_cons (s : string) (c : ascii) (t : string) :
  Str.drop (S (String.length s)) (s +:+ String c t) = t.
Proof. induction s as [|d s IH]; norm; [reflexivity | exact IH]. Qed.

Lemma take_app_length (s t : string) : Str.take (String.length s) (s +:+ t) = s.
Proof.
  induction s as [|c s IH]; norm.
  - now destruct t.
  - now rewrite IH.
Qed.

Lemma take_drop (n : nat) (s : string) : Str.take n s +:+ Str.drop n s = s.
Proof.
  revert s; induction n as [|n IH]; intros [|c s]; norm; try reflexivity.
  now rewrite IH.
Qed.

Lemma length_drop_le (n : nat) (s : string) :
  (String.length (Str.drop n s) <= String.length s)%nat.
Proof.
  revert s; induction n as [|n IH]; intros [|c s]; simpl; try lia.
  specialize (IH s); lia.
Qed.

Lemma app_nil_r (s : string) : s +:+ EmptyString = s.
Proof. induction s as [|c s IH]; norm; [reflexivity | now rewrite IH]. Qed.

Lemma app_assoc (s t u : string) : (s +:+ t) +:+ u = s +:+ t +:+ u.
Proof. induction s as [|c s IH]; norm; [reflexivity | now rewrite IH]. Qed.

Lemma HasSuffix_app (s t : string) : Str.HasSuffix (s +:+ t) t = true.
Proof.
  unfold Str.HasSuffix. rewrite length_app.
  replace (String.length s + String.length t - String.length t)%nat
    with (String.length s) by lia.
  rewrite drop_app_length, String.eqb_refl, andb_true_r.
  apply Nat.leb_le; lia.
Qed.

(** A string that ends with [t] loses exactly that [t]. *)
Lemma TrimSuffix_app (s t : string) : Str.TrimSuffix (s +:+ t) t = s.
Proof.
  unfold Str.TrimSuffix. rewrite HasSuffix_app, length_app.
  replace (String.length s + String.length t - String.length t)%nat
    with (String.length s) by lia.
  apply take_app_length.
Qed.

(** A string that does not end with [t] is left alone. *)
Lemma TrimSuffix_other (s t : string) :
  Str.HasSuffix s t = false -> Str.TrimSuffix s t = s.
Proof. unfold Str.TrimSuffix; now intros ->. Qed.

(** Whatever is trimmed was a suffix. *)
Lemma HasSuffix_split (s t : string) :
  Str.HasSuffix s t = true -> s = Str.TrimSuffix s t +:+ t.
Proof.
  intros H. unfold Str.TrimSuffix; rewrite H.
  unfold Str.HasSuffix in H. apply andb_true_iff in H as [_ H].
  apply String.eqb_eq in H.
  set (k := (String.length s - String.length t)%nat) in *.
  rewrite <- (take_drop k s) at 1. now rewrite H.
Qed.

End StrFacts.

(** ** Variable expansion *)

Module EnvFacts.

Import Env Spec.

Lemma expandLoop_fuel (f : string -> string) (n m : nat) (s : string) :
  (String.length s <= n)%nat -> (String.length s <= m)%nat ->
  expandLoop n f s = expandLoop m f s.
Proof.
  revert m s; induction n as [|n IH]; intros m s Hn Hm.
  - destruct s; simpl in Hn; [|lia]. now destruct m.
  - destruct s as [|c rest]; [now destruct m|].
    destruct m as [|m]; simpl in Hn, Hm; [lia|].
    simpl. destruct (Ascii.eqb c "$" && negb (String.eqb rest EmptyString)).
    + destruct (getShellName rest) as [name w].
      f_equal. pose proof (StrFacts.length_drop_le w rest).
      apply IH; lia.
    + f_equal. apply IH; lia.
Qed.

Lemma Expand_nil (f : string -> string) : Expand EmptyString f = EmptyString.
Proof. reflexivity. Qed.

(** A byte that is not a dollar sign is copied. *)
Lemma Expand_plain (f : string -> string) (c : ascii) (s : string) :
  Ascii.eqb c "$" = false -> Expand (String c s) f = String c (Expand s f).
Proof. intros H. unfold Expand. simpl. now rewrite H. Qed.

(** A dollar sign with something after it starts a reference. *)
Lemma Expand_dollar (f : string -> string) (rest : string) :
  rest <> EmptyString ->
  Expand (String "$" rest) f =
    (let '(name, w) := getShellName rest in
     (if String.eqb name EmptyString && (0 <? w)%nat then EmptyString
      else if String.eqb name EmptyString then "$"
      else f name) +:+ Expand (Str.drop w rest) f).
Proof.
  intros H. unfold Expand. simpl.
  apply String.eqb_neq in H. rewrite H. simpl.
  destruct (getShellName rest) as [name w].
  f_equal. pose proof (StrFacts.length_drop_le w rest).
  apply expandLoop_fuel; lia.
Qed.

Lemma alnumPrefix_app (name post : string) :
  allChars isAlphaNum name = true -> endsName post = true ->
  alnumPrefix (name +:+ post) = name.
Proof.
  intros Hn Hp. induction name as [|c name IH]; StrFacts.norm.
  - destruct post as [|d post]; [reflexivity|]. simpl in *.
    now destruct (isAlphaNum d).
  - simpl in Hn. apply andb_true_iff in Hn as [-> Hn]. now rewrite IH.
Qed.

Lemma isAlphaNum_not_brace (c : ascii) : isAlphaNum c = true -> c <> "{"%char.
Proof. intros H ->. discriminate H. Qed.

Lemma getShellName_name (name post : string) :
  isName name = true -> endsName post = true ->
  getShellName (name +:+ post) = (name, String.length name).
Proof.
  intros Hn Hp. destruct name as [|c name]; [discriminate|].
  unfold isName in Hn. apply andb_true_iff in Hn as [Hs Ha].
  apply negb_true_iff in Hs.
  pose proof (alnumPrefix_app _ _ Ha Hp) as Hpre.
  assert (Hc : isAlphaNum c = true) by (simpl in Ha; now apply andb_true_iff in Ha).
  apply isAlphaNum_not_brace in Hc.
  change (String c name +:+ post) with (String c (name +:+ post)) in *.
  unfold getShellName.
  destruct c as [[] [] [] [] [] [] [] []]; try congruence;
    rewrite ?Hs; rewrite Hpre; reflexivity.
Qed.

(** A reference [$name] is replaced by [f name]; what precedes it is
    copied and what follows it is expanded in turn. *)
Lemma Expand_var (f : string -> string) (pre name post : string) :
  noDollar pre = true -> isName name = true -> endsName post = true ->
  Expand (pre +:+ "$" +:+ name +:+ post) f = pre +:+ f name +:+ Expand post f.
Proof.
  intros Hpre Hn Hp. induction pre as [|c pre IH].
  - StrFacts.norm.
    rewrite Expand_dollar by (destruct name; [discriminate | StrFacts.norm; discriminate]).
    rewrite (getShellName_name _ _ Hn Hp), StrFacts.drop_app_length.
    destruct name; [discriminate | reflexivity].
  - simpl in Hpre. apply andb_true_iff in Hpre as [Hc Hpre].
    apply negb_true_iff in Hc.
    rewrite !(StrFacts.app_cons c pre).
    rewrite Expand_plain by exact Hc. now rewrite IH.
Qed.

(** A dollar sign that ends the string stays. *)
Lemma Expand_last_dollar (f : string -> string) : Expand "$" f = "$".
Proof. reflexivity. Qed.

Lemma index_app (c : ascii) (name post : string) :
  allChars (fun d => negb (Ascii.eqb d c)) name = true ->
  Str.index c (name +:+ String c post) = Some (String.length name).
Proof.
  intros H. induction name as [|d name IH]; StrFacts.norm.
  - now rewrite Ascii.eqb_refl.
  - simpl in H. apply andb_true_iff in H as [Hd H]. apply negb_true_iff in Hd.
    rewrite Hd, (IH H). reflexivity.
Qed.

(** A name in braces is any text without a closing brace. *)
Lemma getShellName_braces (name post : string) :
  name <> EmptyString ->
  allChars (fun d => negb (Ascii.eqb d "}")) name = true ->
  getShellName ("{" +:+ name +:+ "}" +:+ post) = (name, S (S (String.length name))).
Proof.
  intros Hne Hn. StrFacts.norm.
  assert (Hidx := index_app "}" name post Hn).
  assert (Htake : Str.take (String.length name) (name +:+ String "}" post) = name)
    by apply StrFacts.take_app_length.
  destruct (specialInBraces (name +:+ String "}" post)) eqn:Hs.
  - destruct name as [|c1 [|c2 name]]; [congruence| |].
    + reflexivity.
    + revert Hs. StrFacts.norm. simpl in Hn.
      destruct (Ascii.eqb_spec c2 "}") as [->|Hc2].
      * rewrite andb_true_iff in Hn. destruct Hn as [_ Hn]. discriminate Hn.
      * destruct c2 as [[] [] [] [] [] [] [] []]; try discriminate; congruence.
  - rewrite Hidx, Htake. destruct name as [|c name]; [congruence | reflexivity].
Qed.

(** A reference [${name}] is replaced by [f name]. *)
Lemma Expand_braces (f : string -> string) (pre name post : string) :
  noDollar pre = true -> name <> EmptyString ->
  allChars (fun d => negb (Ascii.eqb d "}")) name = true ->
  Expand (pre +:+ "${" +:+ name +:+ "}" +:+ post) f = pre +:+ f name +:+ Expand post f.
Proof.
  intros Hpre Hne Hn. induction pre as [|c pre IH].
  - StrFacts.norm. rewrite Expand_dollar by discriminate.
    change (String "{" (name +:+ String "}" post)) with ("{" +:+ name +:+ "}" +:+ post).
    rewrite (getShellName_braces _ _ Hne Hn).
    replace (Str.drop (S (S (String.length name))) ("{" +:+ name +:+ "}" +:+ post)) with post.
    + destruct name; [congruence | reflexivity].
    + StrFacts.norm. symmetry. apply StrFacts.drop_app_cons.
  - simpl in Hpre. apply andb_true_iff in Hpre as [Hc Hpre].
    apply negb_true_iff in Hc.
    rewrite !(StrFacts.app_cons c pre).
    rewrite Expand_plain by exact Hc. now rewrite IH.
Qed.

(** A string without a dollar sign is its own expansion. *)
Lemma Expand_noDollar (f : string -> string) (s : string) :
  noDollar s = true -> Expand s f = s.
Proof.
  intros H. induction s as [|c s IH]; [reflexivity|].
  simpl in H. apply andb_true_iff in H as [Hc H]. apply negb_true_iff in Hc.
  rewrite Expand_plain by exact Hc. now rewrite IH.
Qed.

End EnvFacts.

(** ** Wait statuses *)

Module WaitFacts.

Import WaitStatus.

Lemma land_mask (w : Z) : Z.land w mask = w mod 128.
Proof. change mask with (Z.ones 7). now rewrite Z.land_ones by lia. Qed.

Lemma land_byte (w : Z) : Z.land w 0xFF = w mod 256.
Proof. change 0xFF with (Z.ones 8). now rewrite Z.land_ones by lia. Qed.

(** A process that called [exit] has exited. *)
Lemma Exited_ofExit (n : Z) : Exited (ofExit n) = true.
Proof.
  unfold Exited, ofExit, shift, exited. rewrite land_mask.
  rewrite Z.shiftl_mul_pow2 by lia.
  change (2 ^ 8) with (2 * 128). rewrite Z.mul_assoc, Z.mod_mul by lia.
  reflexivity.
Qed.

(** Its exit status is the byte it passed to [exit]. *)
Lemma ExitStatus_ofExit (n : Z) : 0 <= n <= 255 -> ExitStatus (ofExit n) = n.
Proof.
  intros Hn. unfold ExitStatus. rewrite Exited_ofExit. simpl.
  unfold ofExit, shift. rewrite Z.shiftr_shiftl_l by lia.
  rewrite Z.sub_diag, Z.shiftl_0_r, !land_byte.
  rewrite Z.mod_mod by lia. apply Z.mod_small; lia.
Qed.

(** The status of a process that exited is a byte. *)
Lemma ExitStatus_range (w : Z) : Exited w = true -> 0 <= ExitStatus w <= 255.
Proof.
  intros H. unfold ExitStatus. rewrite H. simpl. rewrite land_byte.
  pose proof (Z.mod_pos_bound (Z.shiftr w shift) 256). lia.
Qed.

(** A process terminated by a signal has not exited, and has status -1. *)
Lemma Exited_ofSignal (sig : Z) : 1 <= sig <= 126 -> Exited (ofSignal sig) = false.
Proof.
  intros H. unfold Exited, ofSignal, exited. rewrite !land_mask.
  rewrite Z.mod_mod by lia. rewrite Z.mod_small by lia.
  apply Z.eqb_neq; lia.
Qed.

Lemma ExitStatus_ofSignal (sig : Z) :
  1 <= sig <= 126 -> ExitStatus (ofSignal sig) = -1.
Proof. intros H. unfold ExitStatus. now rewrite Exited_ofSignal. Qed.

End WaitFacts.

(** ** Arrays rewritten in place *)

Module ArrayFacts.

Import Spec.

Lemma mapRange_0 (f : string -> string) (i : nat) (a : list string) :
  mapRange f i 0 a = a.
Proof. unfold mapRange. simpl. rewrite Nat.add_0_r. apply take_drop. Qed.


(** One more turn of the loop: rewriting index [i] and then the [n]
    elements after it rewrites [S n] elements from [i]. *)
Lemma mapRange_step (f : string -> string) (i n : nat) (a : list string) :
  mapRange f (S i) n (<[i := f (default EmptyString (a !! i))]> a) = mapRange f i (S n) a.
Proof.
  destruct (a !! i) as [x|] eqn:Hx.
  - pose proof (lookup_lt_Some _ _ _ Hx) as Hlt.
    assert (exists l1 l2, a = l1 ++ x :: l2 /\ List.length l1 = i)
      as (l1 & l2 & Ha & Hlen).
    { exists (take i a), (drop (S i) a). split.
      - symmetry. now apply take_drop_middle.
      - rewrite length_take. lia. }
    clear Hx Hlt. subst a i. simpl.
    unfold mapRange.
    induction l1 as [|y l1 IH]; simpl; [reflexivity | f_equal; exact IH].
  - pose proof (lookup_ge_None_1 _ _ Hx) as Hge.
    rewrite list_insert_ge by exact Hge.
    unfold mapRange.
    rewrite (take_ge a (S i)), (take_ge a i) by lia.
    rewrite !drop_ge by lia. now rewrite !take_nil.
Qed.

(** Read back through the same window, the rewritten elements are the
    images of the old ones. *)
Lemma mapRange_window (f : string -> string) (i n : nat) (a : list string) :
  take n (drop i (mapRange f i n a)) = f <$> take n (drop i a).
Proof.
  unfold mapRange.
  destruct (decide (i <= List.length a)%nat) as [Hi|Hi].
  - rewrite drop_app_length' by (rewrite length_take; lia).
    destruct (decide (n <= List.length (drop i a))%nat) as [Hn|Hn].
    + rewrite take_app_length' by (rewrite length_fmap, length_take; lia). reflexivity.
    + rewrite length_drop in Hn.
      rewrite (drop_ge a (i + n)) by lia. rewrite app_nil_r.
      apply take_ge. rewrite length_fmap, length_take, length_drop. lia.
  - rewrite (drop_ge a i) by lia. rewrite take_nil. simpl.
    rewrite (drop_ge a (i + n)) by lia. rewrite app_nil_r.
    rewrite drop_ge by (rewrite length_take; lia). now rewrite !take_nil.
Qed.

(** Outside the window nothing changes. *)
Lemma mapRange_outside (f : string -> string) (i n j : nat) (a : list string) :
  (j < i \/ i + n <= j)%nat -> mapRange f i n a !! j = a !! j.
Proof.
  intros Hj. unfold mapRange.
  destruct (decide (i <= List.length a)%nat) as [Hi|Hi].
  - destruct Hj as [Hj|Hj].
    + rewrite lookup_app_l by (rewrite length_take; lia).
      apply lookup_take_lt; lia.
    + destruct (decide (j < List.length a)%nat) as [Hja|Hja].
      * rewrite lookup_app_r by (rewrite length_take; lia).
        rewrite lookup_app_r by (rewrite length_take, length_fmap, length_take, length_drop; lia).
        rewrite lookup_drop. f_equal.
        rewrite length_take, length_fmap, length_take, length_drop. lia.
      * rewrite (lookup_ge_None_2 a j) by lia.
        apply lookup_ge_None_2.
        rewrite !length_app, length_fmap, !length_take, !length_drop. lia.
  - rewrite (drop_ge a i) by lia. rewrite take_nil. simpl.
    rewrite (drop_ge a (i + n)) by lia. rewrite app_nil_r.
    now rewrite take_ge by lia.
Qed.

End ArrayFacts.

(** ** The effects of a call *)

Section Effects.

Context (host : Host).
Implicit Types (env : gmap string string) (st : State) (args : Slice).

Import Spec.

Ltac unmonad :=
  cbv [mbind M_bind bind mret M_ret ret gets modify
       Sl.get Sl.set Sl.elems log_Println].

Lemma mbind_run {A B : Type} (m : M A) (k : A -> M B) st :
  (m ≫= k) st = k (m st).1 (m st).2.
Proof. unfold mbind, M_bind, bind. now destruct (m st). Qed.

Lemma setHeap_id st : setHeap (heap st) st = st.
Proof. now destruct st. Qed.

(** [n] turns of the loop of [Exec], starting at index [from]. *)
Lemma forRange_expand env args (from n : nat) st :
  forRange from n (fun i =>
    a ← Sl.get args i; Sl.set args i (Env.Expand a (expand host env))) st
  = (tt, setHeap (alter (mapRange (expandVar host env) (off args + from) n)
                    (base args) (heap st)) st).
Proof.
  revert from st; induction n as [|n IH]; intros from st.
  - simpl. unmonad. f_equal.
    rewrite alter_id by (intros; apply ArrayFacts.mapRange_0).
    symmetry; apply setHeap_id.
  - simpl. unmonad. fold (forRange (S from) n).
    rewrite IH. f_equal. unfold setHeap; simpl. f_equal.
    rewrite alter_alter_eq. apply alter_ext. intros a Ha. simpl.
    unfold Sl.array. rewrite Ha. simpl.
    change (Env.Expand ?x (expand host env)) with (expandVar host env x).
    replace (off args + S from)%nat with (S (off args + from)) by lia.
    apply ArrayFacts.mapRange_step.
Qed.

(** Through [args], the expanded heap shows the expansions of what the
    heap showed. *)
Lemma read_expandedHeap env args (h : gmap nat (list string)) :
  Sl.read (expandedHeap host env args h) args = expandVar host env <$> Sl.read h args.
Proof.
  unfold Sl.read, Sl.array, expandedHeap. rewrite lookup_alter_eq.
  destruct (h !! base args) as [a|]; simpl.
  - apply ArrayFacts.mapRange_window.
  - now rewrite drop_nil, take_nil.
Qed.

(** Arrays other than the one of [args] are as they were. *)
Lemma expandedHeap_other env args (h : gmap nat (list string)) (b : nat) :
  b <> base args -> expandedHeap host env args h !! b = h !! b.
Proof. intros Hb. unfold expandedHeap. now rewrite lookup_alter_ne. Qed.

Lemma heap_write (w : Writer) (data : string) st : heap (write w data st).2 = heap st.
Proof. now destruct w. Qed.

Lemma execs_write (w : Writer) (data : string) st : execs (write w data st).2 = execs st.
Proof. now destruct w. Qed.

Lemma logs_write (w : Writer) (data : string) st : logs (write w data st).2 = logs st.
Proof. now destruct w. Qed.

(** [c.Run()] when the command starts. *)
Lemma Cmd_Run_waited (c : Cmd) (w : Z) (out err : string) st :
  spawn host (Path c) (Args c) (CmdEnv c) = Waited w out err ->
  Cmd_Run host c st =
    (if WaitStatus.ExitStatus w =? 0 then None else Some (ExitError w),
     delivered c out err (setExecs (execs st ++ [c]) st)).
Proof.
  intros H. unfold Cmd_Run, delivered. unmonad. rewrite H.
  destruct (write (Stdout c) out _) as [[] st1] eqn:H1. simpl.
  destruct (write (Stderr c) err st1) as [[] st2] eqn:H2. reflexivity.
Qed.

(** [c.Run()] when the command cannot be started. *)
Lemma Cmd_Run_failed (c : Cmd) (msg : string) st :
  spawn host (Path c) (Args c) (CmdEnv c) = StartFailed msg ->
  Cmd_Run host c st = (Some (LaunchError msg), setExecs (execs st ++ [c]) st).
Proof. intros H. unfold Cmd_Run. unmonad. now rewrite H. Qed.

(** [c.Run()] leaves the heap and the log alone and records [c]. *)
Lemma Cmd_Run_frame (c : Cmd) st :
  heap (Cmd_Run host c st).2 = heap st
  /\ logs (Cmd_Run host c st).2 = logs st
  /\ execs (Cmd_Run host c st).2 = execs st ++ [c].
Proof.
  destruct (spawn host (Path c) (Args c) (CmdEnv c)) as [w out err|msg] eqn:H.
  - rewrite (Cmd_Run_waited _ _ _ _ _ H). unfold delivered. simpl.
    rewrite !heap_write, !logs_write, !execs_write. now destruct st.
  - rewrite (Cmd_Run_failed _ _ _ H). now destruct st.
Qed.

Lemma announced_frame (cmd : string) (expanded : list string) st :
  heap (announced host cmd expanded st) = heap st
  /\ execs (announced host cmd expanded st) = execs st
  /\ streams (announced host cmd expanded st) = streams st.
Proof. unfold announced. now destruct (Verbose host). Qed.

(** [run] on a malformed pattern: nothing happens. *)
Lemma run_bad_pattern env (stdout stderr : Writer) (cmd : string) args st (e : error) :
  expandGlob host (Sl.read (heap st) args) = inr e ->
  run host env stdout stderr cmd args st = ((false, 0, Some e), st).
Proof. intros H. unfold run. unmonad. now rewrite H. Qed.

(** [run] on well-formed patterns: the command is logged and run, and its
    error classified. *)
Lemma run_launch env (stdout stderr : Writer) (cmd : string) args st
    (expanded : list string) :
  expandGlob host (Sl.read (heap st) args) = inl expanded ->
  run host env stdout stderr cmd args st =
    (let r := Cmd_Run host (command host env stdout stderr cmd expanded)
                (announced host cmd expanded st) in
     ((CmdRan r.1, ExitStatus r.1, r.1), r.2)).
Proof.
  intros H. unfold run, announced. unmonad. rewrite H.
  destruct (Verbose host); simpl;
    match goal with |- context [Cmd_Run host ?c ?s] =>
      destruct (Cmd_Run host c s) as [err st'] end; reflexivity.
Qed.

(** [Exec] is the loop over the arguments, then [run], then the choice of
    the error to return. *)
Lemma Exec_unfold env (stdout stderr : Writer) (cmd : string) args st :
  Exec host env stdout stderr cmd args st =
    (let r := run host env stdout stderr (expandVar host env cmd) args
                (setHeap (expandedHeap host env args (heap st)) st) in
     let argv := Sl.read (heap r.2) args in
     (match r.1.2 with
      | None => (true, None)
      | Some e =>
          if r.1.1.1
          then (true, Some (mg_Fatalf r.1.1.2
                              (exitMessage (expandVar host env cmd) argv r.1.1.2)))
          else (false, Some (fmt_Errorf
                               (launchMessage (expandVar host env cmd) argv (Error host e))))
      end, r.2)).
Proof.
  unfold Exec. rewrite mbind_run, forRange_expand, mbind_run.
  rewrite Nat.add_0_r. simpl.
  fold (expandedHeap host env args (heap st)). fold (expandVar host env cmd).
  destruct (run host env stdout stderr (expandVar host env cmd) args _)
    as [[[ran code] err] st2].
  simpl. destruct err as [e|]; [|reflexivity].
  unmonad. destruct ran; reflexivity.
Qed.

Lemma read_prepared env args st :
  Sl.read (heap (prepared host env args st)) args = expandVar host env <$> Sl.read (heap st) args.
Proof. unfold prepared. simpl. apply read_expandedHeap. Qed.

(** [Exec] when a pattern is malformed. *)
Lemma Exec_bad env (stdout stderr : Writer) (cmd : string) args st (e : error) :
  expandGlob host (expandVar host env <$> Sl.read (heap st) args) = inr e ->
  Exec host env stdout stderr cmd args st =
    ((false, Some (fmt_Errorf (launchMessage (expandVar host env cmd)
                                 (expandVar host env <$> Sl.read (heap st) args)
                                 (Error host e)))),
     prepared host env args st).
Proof.
  intros H. rewrite Exec_unfold. fold (prepared host env args st).
  rewrite <- read_prepared in H.
  rewrite (run_bad_pattern _ _ _ _ _ _ _ H). simpl.
  now rewrite <- read_prepared.
Qed.

(** [Exec] when the command starts. *)
Lemma Exec_waited env (stdout stderr : Writer) (cmd : string) args st
    (expanded : list string) (w : Z) (out err : string) :
  expandGlob host (expandVar host env <$> Sl.read (heap st) args) = inl expanded ->
  outcome host (command host env stdout stderr (expandVar host env cmd) expanded)
    = Waited w out err ->
  Exec host env stdout stderr cmd args st =
    (if WaitStatus.ExitStatus w =? 0 then (true, None)
     else if WaitStatus.Exited w
     then (true, Some (mg_Fatalf (WaitStatus.ExitStatus w)
                         (exitMessage (expandVar host env cmd)
                            (expandVar host env <$> Sl.read (heap st) args)
                            (WaitStatus.ExitStatus w))))
     else (false, Some (fmt_Errorf
                          (launchMessage (expandVar host env cmd)
                             (expandVar host env <$> Sl.read (heap st) args)
                             (ProcessState_String host w)))),
     delivered (command host env stdout stderr (expandVar host env cmd) expanded) out err
       (setExecs (execs st ++ [command host env stdout stderr (expandVar host env cmd) expanded])
          (announced host (expandVar host env cmd) expanded (prepared host env args st)))).
Proof.
  intros Hg Ho. rewrite Exec_unfold. fold (prepared host env args st).
  rewrite <- read_prepared in Hg.
  rewrite (run_launch _ _ _ _ _ _ _ Hg). cbv zeta.
  rewrite (Cmd_Run_waited _ _ _ _ _ Ho).
  destruct (announced_frame (expandVar host env cmd) expanded (prepared host env args st))
    as (Hh & He & _).
  rewrite He. change (execs (prepared host env args st)) with (execs st).
  cbn [fst snd].
  assert (Hread : Sl.read (heap (delivered
     (command host env stdout stderr (expandVar host env cmd) expanded) out err
     (setExecs (execs st ++ [command host env stdout stderr (expandVar host env cmd) expanded])
        (announced host (expandVar host env cmd) expanded (prepared host env args st))))) args
     = expandVar host env <$> Sl.read (heap st) args).
  { unfold delivered. rewrite !heap_write. simpl. rewrite Hh. apply read_prepared. }
  rewrite Hread.
  destruct (WaitStatus.ExitStatus w =? 0); [reflexivity|].
  simpl. destruct (WaitStatus.Exited w); reflexivity.
Qed.

(** [Exec] when the command cannot be started. *)
Lemma Exec_not_started env (stdout stderr : Writer) (cmd : string) args st
    (expanded : list string) (msg : string) :
  expandGlob host (expandVar host env <$> Sl.read (heap st) args) = inl expanded ->
  outcome host (command host env stdout stderr (expandVar host env cmd) expanded)
    = StartFailed msg ->
  Exec host env stdout stderr cmd args st =
    ((false, Some (fmt_Errorf (launchMessage (expandVar host env cmd)
                                 (expandVar host env <$> Sl.read (heap st) args) msg))),
     setExecs (execs st ++ [command host env stdout stderr (expandVar host env cmd) expanded])
       (announced host (expandVar host env cmd) expanded (prepared host env args st))).
Proof.
  intros Hg Ho. rewrite Exec_unfold. fold (prepared host env args st).
  rewrite <- read_prepared in Hg.
  rewrite (run_launch _ _ _ _ _ _ _ Hg). cbv zeta.
  rewrite (Cmd_Run_failed _ _ _ Ho).
  destruct (announced_frame (expandVar host env cmd) expanded (prepared host env args st))
    as (Hh & He & _).
  rewrite He. change (execs (prepared host env args st)) with (execs st).
  cbn [fst snd CmdRan asExitError]. cbn [heap setExecs]. rewrite Hh, read_prepared.
  reflexivity.
Qed.

(** Well-formed patterns: every argument gives its matches, or itself. *)
Lemma expandGlobFrom_ok (value result : list string) :
  wellFormed host value = true ->
  expandGlobFrom host result value = inl (result ++ List.concat (globArg host <$> value)).
Proof.
  revert result; induction value as [|v value IH]; intros result Hwf.
  - simpl. now rewrite app_nil_r.
  - simpl in Hwf. apply andb_true_iff in Hwf as [Hv Hwf].
    apply bool_decide_eq_true in Hv as [matches Hv].
    simpl. unfold globArg at 1. rewrite Hv.
    destruct matches as [|m ms]; simpl; rewrite (IH _ Hwf), <- app_assoc; reflexivity.
Qed.

(** A malformed pattern anywhere in the list is the result. *)
Lemma expandGlobFrom_bad (value result : list string) (v : string) :
  In v value -> Glob host v = None ->
  expandGlobFrom host result value = inr ErrBadPattern.
Proof.
  intros Hin Hv. revert result; induction value as [|u value IH]; intros result.
  - destruct Hin.
  - simpl. destruct Hin as [->|Hin].
    + now rewrite Hv.
    + destruct (Glob host u) as [matches|]; [|reflexivity].
      destruct (0 <? List.length matches)%nat; now apply IH.
Qed.

(** When the patterns are well formed, [Exec] hands one command to the
    operating system. *)
Lemma Exec_execs env (stdout stderr : Writer) (cmd : string) args st
    (expanded : list string) :
  expandGlob host (expandVar host env <$> Sl.read (heap st) args) = inl expanded ->
  execs (Exec host env stdout stderr cmd args st).2 =
    execs st ++ [command host env stdout stderr (expandVar host env cmd) expanded].
Proof.
  intros Hg.
  destruct (outcome host (command host env stdout stderr (expandVar host env cmd) expanded))
    as [w out err|msg] eqn:Ho.
  - rewrite (Exec_waited _ _ _ _ _ _ _ _ _ _ Hg Ho). unfold delivered. simpl.
    now rewrite !execs_write.
  - now rewrite (Exec_not_started _ _ _ _ _ _ _ _ Hg Ho).
Qed.

(** Whatever happens, the heap [Exec] leaves is the expanded one. *)
Lemma Exec_heap env (stdout stderr : Writer) (cmd : string) args st :
  heap (Exec host env stdout stderr cmd args st).2 = expandedHeap host env args (heap st).
Proof.
  destruct (expandGlob host (expandVar host env <$> Sl.read (heap st) args))
    as [expanded|e] eqn:Hg.
  - destruct (outcome host (command host env stdout stderr (expandVar host env cmd) expanded))
      as [w out err|msg] eqn:Ho.
    + rewrite (Exec_waited _ _ _ _ _ _ _ _ _ _ Hg Ho). unfold delivered. simpl.
      rewrite !heap_write. simpl.
      now destruct (announced_frame (expandVar host env cmd) expanded (prepared host env args st))
        as (-> & _).
    + rewrite (Exec_not_started _ _ _ _ _ _ _ _ Hg Ho). simpl.
      now destruct (announced_frame (expandVar host env cmd) expanded (prepared host env args st))
        as (-> & _).
  - now rewrite (Exec_bad _ _ _ _ _ _ _ Hg).
Qed.

End Effects.

(** * The claims of the specification *)

Import Spec.

(** ** Exit codes *)

(** C1. A command that the operating system starts and that exits with a
    status [n] between 1 and 255 makes [Exec] return [ran = true] together
    with the failure built by [mg.Fatalf] for exactly [n]; [ExitStatus] reads
    [n] back from it, which is what lets a caller exit with the same code. *)
Theorem Exec_nonzero_exit (host : Host) (env : gmap string string)
    (stdout stderr : Writer) (cmd : string) (args : Slice) (st : State)
    (expanded : list string) (n : Z) (out err : string) :
  expandGlob host (expandVar host env <$> Sl.read (heap st) args) = inl expanded ->
  outcome host (command host env stdout stderr (expandVar host env cmd) expanded)
    = Waited (WaitStatus.ofExit n) out err ->
  1 <= n <= 255 ->
  (Exec host env stdout stderr cmd args st).1 =
    (true, Some (mg_Fatalf n (exitMessage (expandVar host env cmd)
                                (expandVar host env <$> Sl.read (heap st) args) n)))
  /\ ExitStatus (Exec host env stdout stderr cmd args st).1.2 = n.
Proof.
  intros Hg Ho Hn.
  rewrite (Exec_waited _ _ _ _ _ _ _ _ _ _ _ Hg Ho).
  rewrite WaitFacts.Exited_ofExit, WaitFacts.ExitStatus_ofExit by lia.
  destruct (n =? 0) eqn:Hz; [apply Z.eqb_eq in Hz; lia|].
  split; reflexivity.
Qed.

Lemma Exec_nonzero_exit_witness :
  (Exec Demo.host ∅ os_Stdout os_Stderr "exit3" Demo.args Demo.state).1.1 = true
  /\ ExitStatus (Exec Demo.host ∅ os_Stdout os_Stderr "exit3" Demo.args Demo.state).1.2 = 3.
Proof.
  destruct (Exec_nonzero_exit Demo.host ∅ os_Stdout os_Stderr "exit3" Demo.args Demo.state
              ["baz"; "a.go"; "b.go"; "*.xyz"] 3 EmptyString "bye") as [H1 H2].
  - vm_compute. reflexivity.
  - vm_compute. reflexivity.
  - lia.
  - split; [now rewrite H1 | exact H2].
Defined.

(** C3. A command that exits with status 0 makes [Exec] return [ran = true]
    and a nil error; and whenever the error [Exec] returns is nil, [ran] is
    true. *)
Theorem Exec_zero_exit (host : Host) (env : gmap string string)
    (stdout stderr : Writer) (cmd : string) (args : Slice) (st : State) :
  (forall (expanded : list string) (w : Z) (out err : string),
     expandGlob host (expandVar host env <$> Sl.read (heap st) args) = inl expanded ->
     outcome host (command host env stdout stderr (expandVar host env cmd) expanded)
       = Waited w out err ->
     WaitStatus.ExitStatus w = 0 ->
     (Exec host env stdout stderr cmd args st).1 = (true, None))
  /\ ((Exec host env stdout stderr cmd args st).1.2 = None ->
      (Exec host env stdout stderr cmd args st).1.1 = true).
Proof.
  split.
  - intros expanded w out err Hg Ho Hw.
    rewrite (Exec_waited _ _ _ _ _ _ _ _ _ _ _ Hg Ho), Hw. reflexivity.
  - rewrite Exec_unfold. cbv zeta. cbn [fst snd].
    destruct (run host env stdout stderr (expandVar host env cmd) args _)
      as [[[ran code] [e|]] st2]; cbn [fst snd]; [|reflexivity].
    destruct ran; discriminate.
Qed.

Lemma Exec_zero_exit_witness :
  (Exec Demo.host ∅ os_Stdout os_Stderr "true" Demo.args Demo.state).1 = (true, None).
Proof.
  apply (proj1 (Exec_zero_exit Demo.host ∅ os_Stdout os_Stderr "true" Demo.args Demo.state)
           ["baz"; "a.go"; "b.go"; "*.xyz"] (WaitStatus.ofExit 0) EmptyString EmptyString).
  - vm_compute. reflexivity.
  - vm_compute. reflexivity.
  - vm_compute. reflexivity.
Defined.

(** ** Launch failures *)

(** C4. When the executable cannot be started, [Exec] returns [ran = false]
    and an error whose message says that running the command failed and
    embeds the text of the operating system's error; that error is built by
    [fmt.Errorf] and carries no exit status, and [CmdRan] is false on the
    error the launch gave. *)
Theorem Exec_launch_failure (host : Host) (env : gmap string string)
    (stdout stderr : Writer) (cmd : string) (args : Slice) (st : State)
    (expanded : list string) (msg : string) :
  expandGlob host (expandVar host env <$> Sl.read (heap st) args) = inl expanded ->
  outcome host (command host env stdout stderr (expandVar host env cmd) expanded)
    = StartFailed msg ->
  (Exec host env stdout stderr cmd args st).1 =
    (false, Some (fmt_Errorf (launchMessage (expandVar host env cmd)
                                (expandVar host env <$> Sl.read (heap st) args) msg)))
  /\ (forall e, (Exec host env stdout stderr cmd args st).1.2 = Some e ->
                asExitStatus e = None /\ asExitError e = None)
  /\ CmdRan (Some (LaunchError msg)) = false.
Proof.
  intros Hg Ho. rewrite (Exec_not_started _ _ _ _ _ _ _ _ _ Hg Ho).
  split; [reflexivity|]. split; [|reflexivity].
  intros e [= <-]. split; reflexivity.
Qed.

Lemma Exec_launch_failure_witness :
  (Exec Demo.host ∅ os_Stdout os_Stderr "/no/such" Demo.args Demo.state).1.1 = false.
Proof.
  destruct (Exec_launch_failure Demo.host ∅ os_Stdout os_Stderr "/no/such" Demo.args Demo.state
              ["baz"; "a.go"; "b.go"; "*.xyz"]
              "exec: /no/such: executable file not found in $PATH") as (H & _).
  - vm_compute. reflexivity.
  - vm_compute. reflexivity.
  - now rewrite H.
Defined.

(** C9. When one of the expanded arguments is a malformed pattern, [run]
    returns [ErrBadPattern] itself with [ran = false] and has done nothing,
    and [Exec] returns [ran = false] with an error that embeds its text: no
    command was handed to the operating system, nothing was written and
    nothing was logged. *)
Theorem Exec_malformed_pattern (host : Host) (env : gmap string string)
    (stdout stderr : Writer) (cmd : string) (args : Slice) (st : State) (v : string) :
  In v (expandVar host env <$> Sl.read (heap st) args) ->
  Glob host v = None ->
  run host env stdout stderr (expandVar host env cmd) args (prepared host env args st)
    = ((false, 0, Some ErrBadPattern), prepared host env args st)
  /\ (Exec host env stdout stderr cmd args st).1 =
       (false, Some (fmt_Errorf (launchMessage (expandVar host env cmd)
                                   (expandVar host env <$> Sl.read (heap st) args)
                                   (Error host ErrBadPattern))))
  /\ execs (Exec host env stdout stderr cmd args st).2 = execs st
  /\ streams (Exec host env stdout stderr cmd args st).2 = streams st
  /\ logs (Exec host env stdout stderr cmd args st).2 = logs st.
Proof.
  intros Hin Hv.
  pose proof (expandGlobFrom_bad host _ [] _ Hin Hv) as Hg.
  fold (expandGlob host (expandVar host env <$> Sl.read (heap st) args)) in Hg.
  split.
  - apply run_bad_pattern. now rewrite read_prepared.
  - rewrite (Exec_bad _ _ _ _ _ _ _ _ Hg). repeat split; reflexivity.
Qed.

Lemma Exec_malformed_pattern_witness :
  (Exec Demo.host ∅ os_Stdout os_Stderr "true" Demo.badArgs Demo.badState).1.1 = false
  /\ execs (Exec Demo.host ∅ os_Stdout os_Stderr "true" Demo.badArgs Demo.badState).2 = [].
Proof.
  destruct (Exec_malformed_pattern Demo.host ∅ os_Stdout os_Stderr "true"
              Demo.badArgs Demo.badState "[") as (_ & H & He & _).
  - vm_compute. right. left. reflexivity.
  - reflexivity.
  - split; [now rewrite H | exact He].
Defined.

(** ** Glob expansion *)

(** C6. Each argument is expanded on its own: where the patterns are well
    formed, [expandGlob] returns, in the order of the arguments, the matches
    of every argument that has some and the argument itself where there are
    none, so that no argument is dropped; an argument without a match is
    passed as it is; and the command [run] hands to the operating system
    has [cmd] itself as its path and first argument, followed by that
    list. *)
Theorem expandGlob_each_argument (host : Host) (env : gmap string string)
    (stdout stderr : Writer) (cmd : string) (args : Slice) (st : State) :
  wellFormed host (Sl.read (heap st) args) = true ->
  expandGlob host (Sl.read (heap st) args)
    = inl (List.concat (globArg host <$> Sl.read (heap st) args))
  /\ (forall v, Glob host v = Some [] -> globArg host v = [v])
  /\ (forall v m ms, Glob host v = Some (m :: ms) -> globArg host v = m :: ms)
  /\ (forall v, globArg host v <> [])
  /\ exists c,
       execs (run host env stdout stderr cmd args st).2 = execs st ++ [c]
       /\ Path c = cmd
       /\ Args c = cmd :: List.concat (globArg host <$> Sl.read (heap st) args).
Proof.
  intros Hwf.
  pose proof (expandGlobFrom_ok host _ [] Hwf) as Hg. simpl in Hg.
  fold (expandGlob host (Sl.read (heap st) args)) in Hg.
  split; [exact Hg|].
  split; [intros v Hv; unfold globArg; now rewrite Hv|].
  split; [intros v m ms Hv; unfold globArg; now rewrite Hv|].
  split.
  - intros v. unfold globArg. destruct (Glob host v) as [[|m ms]|]; discriminate.
  - eexists. rewrite (run_launch host _ _ _ _ _ _ _ Hg). cbv zeta. cbn [snd].
    destruct (Cmd_Run_frame host
                (command host env stdout stderr cmd
                   (List.concat (globArg host <$> Sl.read (heap st) args)))
                (announced host cmd
                   (List.concat (globArg host <$> Sl.read (heap st) args)) st))
      as (_ & _ & ->).
    destruct (announced_frame host cmd
                (List.concat (globArg host <$> Sl.read (heap st) args)) st)
      as (_ & -> & _).
    split; [reflexivity|]. split; reflexivity.
Qed.

Lemma expandGlob_each_argument_witness :
  expandGlob Demo.host ["*.go"; "*.xyz"; "a.go"] = inl ["a.go"; "b.go"; "*.xyz"; "a.go"].
Proof.
  exact (proj1 (expandGlob_each_argument Demo.host ∅ None None "ls"
                  (Sl.make ["*.go"; "*.xyz"; "a.go"] Demo.empty).1
                  (Sl.make ["*.go"; "*.xyz"; "a.go"] Demo.empty).2
                  eq_refl)).
Defined.

(** C7. Variables are expanded before patterns are: where the expanded
    arguments are well-formed patterns, the command [Exec] hands to the
    operating system has as its arguments, in order, the glob expansion of
    the variable expansion of each argument. *)
Theorem Exec_expands_before_glob (host : Host) (env : gmap string string)
    (stdout stderr : Writer) (cmd : string) (args : Slice) (st : State) :
  wellFormed host (expandVar host env <$> Sl.read (heap st) args) = true ->
  execs (Exec host env stdout stderr cmd args st).2 =
    execs st ++
    [command host env stdout stderr (expandVar host env cmd)
       (List.concat ((fun a => globArg host (expandVar host env a))
                       <$> Sl.read (heap st) args))].
Proof.
  intros Hwf.
  pose proof (expandGlobFrom_ok host _ [] Hwf) as Hg. simpl in Hg.
  fold (expandGlob host (expandVar host env <$> Sl.read (heap st) args)) in Hg.
  rewrite (Exec_execs host _ _ _ _ _ _ _ Hg).
  now rewrite <- list_fmap_compose.
Qed.

Lemma Exec_expands_before_glob_witness :
  Args <$> execs (Exec Demo.host {[ "PAT" := "*.go" ]} os_Stdout os_Stderr "echo"
                    (Sl.make ["$PAT"; "$FOO"] Demo.empty).1
                    (Sl.make ["$PAT"; "$FOO"] Demo.empty).2).2
  = [["echo"; "a.go"; "b.go"; "baz"]].
Proof.
  rewrite (Exec_expands_before_glob Demo.host {[ "PAT" := "*.go" ]} os_Stdout os_Stderr "echo"
             (Sl.make ["$PAT"; "$FOO"] Demo.empty).1
             (Sl.make ["$PAT"; "$FOO"] Demo.empty).2).
  - vm_compute. reflexivity.
  - vm_compute. reflexivity.
Defined.

(** ** Variable expansion *)

(** C5. A reference [$name] in a string that [Exec] expands is replaced by
    the value the override map gives to [name] when it has one, whatever the
    environment of the process says; otherwise by the value the environment
    gives to it; otherwise by the empty string. What precedes the reference
    is copied and what follows it is expanded the same way. [Exec] applies
    this expansion to the command name and to each argument: the command it
    hands to the operating system is named by the expansion of [cmd] and
    has the glob expansion of the expanded arguments. *)
Theorem Exec_expands_variables (host : Host) (env : gmap string string)
    (pre name post : string) :
  noDollar pre = true -> isName name = true -> endsName post = true ->
  expandVar host env (pre +:+ "$" +:+ name +:+ post)
    = pre
      +:+ match env !! name with
          | Some v => v
          | None =>
              match environ host !! name with
              | Some v => v
              | None => EmptyString
              end
          end
      +:+ expandVar host env post
  /\ (forall (stdout stderr : Writer) (cmd : string) (args : Slice) (st : State)
        (expanded : list string),
        expandGlob host (expandVar host env <$> Sl.read (heap st) args) = inl expanded ->
        execs (Exec host env stdout stderr cmd args st).2 =
          execs st ++ [command host env stdout stderr (expandVar host env cmd) expanded]).
Proof.
  intros Hpre Hname Hpost. split.
  - unfold expandVar. rewrite (EnvFacts.Expand_var _ _ _ _ Hpre Hname Hpost).
    unfold expand, os_Getenv.
    destruct (env !! name); [reflexivity|].
    destruct (environ host !! name); reflexivity.
  - intros. now apply Exec_execs.
Qed.

Lemma Exec_expands_variables_witness :
  expandVar Demo.host {[ "FOO" := "bar" ]} "-o=$FOO/x" = "-o=bar/x"
  /\ expandVar Demo.host ∅ "-o=$FOO/x" = "-o=baz/x"
  /\ expandVar Demo.host ∅ "-o=$NONE/x" = "-o=/x".
Proof.
  split; [|split].
  - exact (proj1 (Exec_expands_variables Demo.host {[ "FOO" := "bar" ]} "-o=" "FOO" "/x"
                    eq_refl eq_refl eq_refl)).
  - exact (proj1 (Exec_expands_variables Demo.host ∅ "-o=" "FOO" "/x"
                    eq_refl eq_refl eq_refl)).
  - exact (proj1 (Exec_expands_variables Demo.host ∅ "-o=" "NONE" "/x"
                    eq_refl eq_refl eq_refl)).
Defined.

(** ** Captured output *)

Section Capture.

Context (host : Host).

(** The streams of a command play no part in what becomes of it. *)
Lemma outcome_streams (env : gmap string string) (o1 e1 o2 e2 : Writer)
    (cmd : string) (expanded : list string) :
  outcome host (command host env o1 e1 cmd expanded)
  = outcome host (command host env o2 e2 cmd expanded).
Proof. reflexivity. Qed.

(** A new buffer is neither of the standard streams. *)
Lemma newBuffer_fresh (st : State) :
  (newBuffer st).1 <> 2%nat /\ (newBuffer st).1 <> 1%nat
  /\ streams (newBuffer st).2 !! (newBuffer st).1 = Some EmptyString
  /\ heap (newBuffer st).2 = heap st.
Proof.
  unfold newBuffer. cbn [fst snd].
  pose proof (is_fresh ({[1%nat; 2%nat]} ∪ dom (streams st))) as Hf.
  set (b := fresh ({[1%nat; 2%nat]} ∪ dom (streams st))) in *.
  repeat split.
  - intros Hb. apply Hf. rewrite Hb. set_solver.
  - intros Hb. apply Hf. rewrite Hb. set_solver.
  - simpl. apply lookup_insert_eq.
Qed.

(** What the buffer given to [Exec] holds once a started command is
    done. *)
Lemma OutputWith_captured (env : gmap string string) (cmd : string) (args : Slice)
    (st : State) (expanded : list string) (w : Z) (out err : string) :
  expandGlob host (expandVar host env <$> Sl.read (heap st) args) = inl expanded ->
  outcome host (command host env None None (expandVar host env cmd) expanded)
    = Waited w out err ->
  (OutputWith host env cmd args st).1.1 = Str.TrimSuffix out newline.
Proof.
  intros Hg Ho. unfold OutputWith. rewrite mbind_run.
  destruct (newBuffer_fresh st) as (Hb2 & _ & Hb & Hh).
  set (b := (newBuffer st).1) in *. set (st0 := (newBuffer st).2) in *.
  rewrite <- Hh in Hg.
  rewrite (outcome_streams env None None (Some b) os_Stderr) in Ho.
  rewrite mbind_run, (Exec_waited host _ _ _ _ _ _ _ _ _ _ Hg Ho).
  cbn [fst snd]. rewrite mbind_run. unfold Buffer_String, gets, mret, M_ret, ret.
  cbn [fst snd]. f_equal.
  unfold delivered, command, write. cbn [Stdout Stderr os_Stderr].
  unfold modify. cbn [fst snd streams setStreams setExecs].
  destruct (announced_frame host (expandVar host env cmd) expanded (prepared host env args st0))
    as (_ & _ & ->).
  change (streams (prepared host env args st0)) with (streams st0).
  rewrite lookup_insert_ne by (intros H; apply Hb2; now symmetry).
  rewrite lookup_insert_eq, Hb. reflexivity.
Qed.

End Capture.

(** C8. [Output] and [OutputWith] return what the command wrote to its
    standard output without one trailing newline: the result is
    [TrimSuffix] of the captured text, which removes the newline a text ends
    with, only that one, and leaves a text that does not end with a newline
    as it is. *)
Theorem Output_strips_one_newline (host : Host) (env : gmap string string)
    (cmd : string) (args : Slice) (st : State)
    (expanded : list string) (w : Z) (out err : string) :
  expandGlob host (expandVar host env <$> Sl.read (heap st) args) = inl expanded ->
  outcome host (command host env None None (expandVar host env cmd) expanded)
    = Waited w out err ->
  (OutputWith host env cmd args st).1.1 = Str.TrimSuffix out newline
  /\ (env = ∅ -> (Output host cmd args st).1.1 = Str.TrimSuffix out newline)
  /\ (forall s, Str.TrimSuffix (s +:+ newline) newline = s)
  /\ (forall s, Str.HasSuffix s newline = false -> Str.TrimSuffix s newline = s).
Proof.
  intros Hg Ho. repeat split.
  - now apply (OutputWith_captured host env cmd args st expanded w out err).
  - intros ->. now apply (OutputWith_captured host ∅ cmd args st expanded w out err).
  - intros s. apply StrFacts.TrimSuffix_app.
  - intros s. apply StrFacts.TrimSuffix_other.
Qed.

Lemma Output_strips_one_newline_witness :
  (Output Demo.host "echo" (Sl.make ["hello"] Demo.empty).1
     (Sl.make ["hello"] Demo.empty).2).1.1 = "hello"
  /\ Str.TrimSuffix ("hello" +:+ newline +:+ newline) newline = "hello" +:+ newline
  /\ Str.TrimSuffix "hello" newline = "hello".
Proof.
  destruct (Output_strips_one_newline Demo.host ∅ "echo"
              (Sl.make ["hello"] Demo.empty).1 (Sl.make ["hello"] Demo.empty).2
              ["hello"] (WaitStatus.ofExit 0) ("hello" +:+ newline) EmptyString)
    as (_ & H & H1 & H2).
  - vm_compute. reflexivity.
  - vm_compute. reflexivity.
  - split; [|split].
    + rewrite (H eq_refl). apply H1.
    + rewrite <- StrFacts.app_assoc. apply H1.
    + apply H2. reflexivity.
Defined.

(** ** Arguments overwritten in place *)

Section InPlace.

Context (host : Host).

(** The first [n] elements of a window of which [n + k] were rewritten. *)
Lemma mapRange_window_prefix (f : string -> string) (i n k : nat) (a : list string) :
  take n (drop i (mapRange f i (n + k) a)) = f <$> take n (drop i a).
Proof.
  pose proof (ArrayFacts.mapRange_window f i (n + k) a) as H.
  apply (f_equal (take n)) in H.
  rewrite take_take, <- fmap_take, take_take in H.
  now replace (n `min` (n + k))%nat with n in H by lia.
Qed.

(** Appending in place leaves the elements before the end alone. *)
Lemma inserts_window (i n : nat) (xs a : list string) :
  take n (drop i (list_inserts (i + n) xs a)) = take n (drop i a).
Proof.
  apply list_eq. intros j.
  destruct (decide (j < n)%nat) as [Hj|Hj].
  - rewrite !lookup_take_lt, !lookup_drop by lia.
    apply list_lookup_inserts_lt. lia.
  - now rewrite !lookup_take_ge by lia.
Qed.

Lemma RunWith_heap (env : gmap string string) (cmd : string) (args : Slice) (st : State) :
  heap (RunWith host env cmd args st).2 = expandedHeap host env args (heap st).
Proof.
  unfold RunWith. rewrite mbind_run. cbn [mret M_ret ret snd].
  apply Exec_heap.
Qed.

(** The closure of [RunCmd] called with arguments that fit in the room
    left after the baked-in ones. *)
Lemma RunCmd_in_place (cmd : string) (args args2 : Slice) (st : State) :
  (len args + List.length (Sl.read (heap st) args2) <= cap args)%nat ->
  Sl.read (heap (RunCmd host cmd args args2 st).2) args
  = expandVar host ∅ <$> Sl.read (heap st) args.
Proof.
  intros Hcap. unfold RunCmd. rewrite mbind_run.
  unfold Sl.elems at 1, gets. cbn [fst snd].
  rewrite mbind_run. unfold Sl.append.
  apply Nat.leb_le in Hcap. rewrite Hcap.
  generalize (Sl.read (heap st) args2) as extra. intros extra.
  rewrite mbind_run. unfold modify, mret, M_ret, ret. cbn [fst snd].
  unfold Run. rewrite RunWith_heap. cbn [heap setHeap].
  unfold expandedHeap, Sl.read, Sl.array. cbn [base off len].
  rewrite alter_alter_eq, lookup_alter_eq.
  simpl. destruct (heap st !! base args) as [a|]; simpl.
  - rewrite mapRange_window_prefix. f_equal. apply inserts_window.
  - now rewrite drop_nil, take_nil.
Qed.

(** The closure of [RunCmd] called with more than fits: the baked-in
    arguments are copied, and the originals stay as they were. *)
Lemma RunCmd_copied (cmd : string) (args args2 : Slice) (st : State) :
  (cap args < len args + List.length (Sl.read (heap st) args2))%nat ->
  is_Some (heap st !! base args) ->
  Sl.read (heap (RunCmd host cmd args args2 st).2) args = Sl.read (heap st) args.
Proof.
  intros Hcap Hbase. unfold RunCmd. rewrite mbind_run.
  unfold Sl.elems at 1, gets. cbn [fst snd].
  rewrite mbind_run. unfold Sl.append.
  apply Nat.leb_gt in Hcap. rewrite Hcap.
  generalize (Sl.read (heap st) args2) as extra. intros extra.
  rewrite mbind_run. unfold Sl.elems, gets, Sl.make. cbn [fst snd].
  unfold Run. rewrite RunWith_heap. cbn [heap setHeap].
  unfold expandedHeap, Sl.read, Sl.array. cbn [base].
  assert (Hb : fresh (dom (heap st)) <> base args).
  { intros Hb. apply (is_fresh (dom (heap st))). rewrite Hb.
    now apply elem_of_dom. }
  now rewrite lookup_alter_ne, lookup_insert_ne by exact Hb.
Qed.

End InPlace.

(** C10. [Exec] writes the expansions through the slice it is given: when it
    returns, whatever the outcome, the backing array of [args] holds the
    variable expansion of each argument where the argument was, and no other
    array has changed. So it is after [RunWith] and [Run]; and the closure
    of [RunCmd], when what it is called with fits in the room left after
    the baked-in arguments, leaves these replaced by their expansions,
    while a call that needs a new array leaves them as they were. *)
Theorem Exec_overwrites_arguments (host : Host) (env : gmap string string)
    (stdout stderr : Writer) (cmd : string) (args : Slice) (st : State) :
  Sl.read (heap (Exec host env stdout stderr cmd args st).2) args
    = expandVar host env <$> Sl.read (heap st) args
  /\ heap (Exec host env stdout stderr cmd args st).2
     = alter (mapRange (expandVar host env) (off args) (len args)) (base args) (heap st)
  /\ (forall b, b <> base args ->
        heap (Exec host env stdout stderr cmd args st).2 !! b = heap st !! b)
  /\ Sl.read (heap (RunWith host env cmd args st).2) args
     = expandVar host env <$> Sl.read (heap st) args
  /\ Sl.read (heap (Run host cmd args st).2) args
     = expandVar host ∅ <$> Sl.read (heap st) args
  /\ (forall args2 : Slice,
        (len args + List.length (Sl.read (heap st) args2) <= cap args)%nat ->
        Sl.read (heap (RunCmd host cmd args args2 st).2) args
        = expandVar host ∅ <$> Sl.read (heap st) args)
  /\ (forall args2 : Slice,
        (cap args < len args + List.length (Sl.read (heap st) args2))%nat ->
        is_Some (heap st !! base args) ->
        Sl.read (heap (RunCmd host cmd args args2 st).2) args = Sl.read (heap st) args).
Proof.
  split; [rewrite Exec_heap; apply read_expandedHeap|].
  split; [apply Exec_heap|].
  split; [intros b Hb; rewrite Exec_heap; now apply expandedHeap_other|].
  split; [rewrite RunWith_heap; apply read_expandedHeap|].
  split; [unfold Run; rewrite RunWith_heap; apply read_expandedHeap|].
  split; [intros args2; apply RunCmd_in_place | intros args2; apply RunCmd_copied].
Qed.

(** A closure with the baked-in argument [$X], where [X] is [$Y] and [Y] is
    [secret], called twice with nothing: the first call leaves [$Y] where
    [$X] was, and the second call runs the command on [secret]. *)
Lemma Exec_overwrites_arguments_witness :
  let baked := (Sl.make ["$X"] Demo.empty).1 in
  let st0 := (Sl.make ["$X"] Demo.empty).2 in
  let none := {| base := 0; off := 0; len := 0; cap := 0 |} in
  let st1 := (RunCmd Demo.host "echo" baked none st0).2 in
  let st2 := (RunCmd Demo.host "echo" baked none st1).2 in
  Sl.read (heap st0) baked = ["$X"]
  /\ Sl.read (heap st1) baked = ["$Y"]
  /\ Args <$> execs st2 = [["echo"; "$Y"]; ["echo"; "secret"]].
Proof.
  intros baked st0 none st1 st2.
  split; [reflexivity|]. split.
  - unfold st1.
    rewrite (proj1 (proj2 (proj2 (proj2 (proj2 (proj2
               (Exec_overwrites_arguments Demo.host ∅ None None "echo" baked st0))))))
               none).
    + vm_compute. reflexivity.
    + vm_compute. lia.
  - vm_compute. reflexivity.
Defined.

(** ** Whether the process ran *)

(** The errors on which [CmdRan] is true. *)
Lemma CmdRan_true_iff (err : option error) :
  CmdRan err = true <->
  err = None \/ exists w, err = Some (ExitError w) /\ WaitStatus.Exited w = true.
Proof.
  split.
  - destruct err as [[w| | |]|]; simpl; intros H; try discriminate; eauto.
  - intros [->|(w & -> & H)]; [reflexivity | exact H].
Qed.

(** On the [ExitError] of a process terminated by a signal, which has not
    exited, [CmdRan] is false and [ExitStatus] is -1. *)
Lemma CmdRan_signaled (sig : Z) :
  1 <= sig <= 126 ->
  CmdRan (Some (ExitError (WaitStatus.ofSignal sig))) = false
  /\ ExitStatus (Some (ExitError (WaitStatus.ofSignal sig))) = -1.
Proof.
  intros H. simpl.
  now rewrite WaitFacts.Exited_ofSignal, WaitFacts.ExitStatus_ofSignal.
Qed.

(** The [ran] result of [Exec] is [CmdRan] of the error [c.Run()] gave. *)
Lemma Exec_ran (host : Host) (env : gmap string string) (stdout stderr : Writer)
    (cmd : string) (args : Slice) (st : State) (expanded : list string) :
  expandGlob host (expandVar host env <$> Sl.read (heap st) args) = inl expanded ->
  (Exec host env stdout stderr cmd args st).1.1 =
    CmdRan (Cmd_Run host (command host env stdout stderr (expandVar host env cmd) expanded)
              (announced host (expandVar host env cmd) expanded
                 (prepared host env args st))).1.
Proof.
  intros Hg. rewrite Exec_unfold. fold (prepared host env args st).
  rewrite <- read_prepared in Hg.
  rewrite (run_launch host _ _ _ _ _ _ _ Hg). cbv zeta. cbn [fst snd].
  destruct (Cmd_Run host _ _) as [[e|] st']; cbn [fst snd]; [|reflexivity].
  destruct (CmdRan (Some e)); reflexivity.
Qed.

(** C2, as the code has it. [CmdRan] is true for a nil error and for every
    [ExitError] whose process exited, whatever its exit code; it is false
    for every error that is not an [ExitError]: the launch failures, and
    with them the errors of any other type. *)
Theorem CmdRan_cases :
  CmdRan None = true
  /\ (forall w, WaitStatus.Exited w = true -> CmdRan (Some (ExitError w)) = true)
  /\ (forall n, CmdRan (Some (ExitError (WaitStatus.ofExit n))) = true)
  /\ (forall msg, CmdRan (Some (LaunchError msg)) = false)
  /\ (forall e, asExitError e = None -> CmdRan (Some e) = false).
Proof.
  split; [reflexivity|].
  split; [intros w H; exact H|].
  split; [intros n; apply WaitFacts.Exited_ofExit|].
  split; [reflexivity|].
  intros e H. simpl. now rewrite H.
Qed.

Lemma CmdRan_cases_witness :
  CmdRan (Some (ExitError (WaitStatus.ofExit 3))) = true
  /\ CmdRan (Some (errorString "broken pipe")) = false.
Proof.
  destruct CmdRan_cases as (_ & H1 & _ & _ & H2).
  split; [apply H1; reflexivity | apply H2; reflexivity].
Defined.

(** [CmdRan] is false on the failure [Exec] returns, with [ran = true], for
    a command that ran and exited with status 3: an error on which it is
    false need not say that the process never started. *)
Lemma CmdRan_false_though_ran :
  (Exec Demo.host ∅ os_Stdout os_Stderr "exit3" Demo.args Demo.state).1
    = (true, Some Demo.exit3Error)
  /\ CmdRan (Some Demo.exit3Error) = false
  /\ neverStarted Demo.exit3Error = false
  /\ ~ (forall e : error, CmdRan (Some e) = false -> neverStarted e = true).
Proof.
  split; [vm_compute; reflexivity|].
  split; [reflexivity|]. split; [reflexivity|].
  intros H. specialize (H Demo.exit3Error eq_refl). discriminate H.
Qed.


(** * Further properties of the package *)

(** ** What a call returns *)

Section Returns.

Context (host : Host).
Implicit Types (env : gmap string string) (st : State) (args : Slice).

(** Every way [Exec] returns, by what the patterns and the operating system
    give. *)
Lemma Exec_result env (stdout stderr : Writer) (cmd : string) args st :
  (Exec host env stdout stderr cmd args st).1 =
    match expandGlob host (expandVar host env <$> Sl.read (heap st) args) with
    | inr e =>
        (false, Some (fmt_Errorf (launchMessage (expandVar host env cmd)
                                    (expandVar host env <$> Sl.read (heap st) args)
                                    (Error host e))))
    | inl expanded =>
        match outcome host (command host env stdout stderr (expandVar host env cmd) expanded) with
        | Waited w out err =>
            if WaitStatus.ExitStatus w =? 0 then (true, None)
            else if WaitStatus.Exited w
            then (true, Some (mg_Fatalf (WaitStatus.ExitStatus w)
                                (exitMessage (expandVar host env cmd)
                                   (expandVar host env <$> Sl.read (heap st) args)
                                   (WaitStatus.ExitStatus w))))
            else (false, Some (fmt_Errorf
                                 (launchMessage (expandVar host env cmd)
                                    (expandVar host env <$> Sl.read (heap st) args)
                                    (ProcessState_String host w))))
        | StartFailed msg =>
            (false, Some (fmt_Errorf (launchMessage (expandVar host env cmd)
                                        (expandVar host env <$> Sl.read (heap st) args) msg)))
        end
    end.
Proof.
  destruct (expandGlob host (expandVar host env <$> Sl.read (heap st) args))
    as [expanded|e] eqn:Hg.
  - destruct (outcome host (command host env stdout stderr (expandVar host env cmd) expanded))
      as [w out err|msg] eqn:Ho.
    + now rewrite (Exec_waited host _ _ _ _ _ _ _ _ _ _ Hg Ho).
    + now rewrite (Exec_not_started host _ _ _ _ _ _ _ _ Hg Ho).
  - now rewrite (Exec_bad host _ _ _ _ _ _ _ Hg).
Qed.

(** The streams [Exec] leaves. *)
Lemma Exec_streams env (stdout stderr : Writer) (cmd : string) args st :
  streams (Exec host env stdout stderr cmd args st).2 =
    match expandGlob host (expandVar host env <$> Sl.read (heap st) args) with
    | inr _ => streams st
    | inl expanded =>
        match outcome host (command host env stdout stderr (expandVar host env cmd) expanded) with
        | Waited w out err => received stderr err (received stdout out (streams st))
        | StartFailed _ => streams st
        end
    end.
Proof.
  destruct (expandGlob host (expandVar host env <$> Sl.read (heap st) args))
    as [expanded|e] eqn:Hg.
  - destruct (outcome host (command host env stdout stderr (expandVar host env cmd) expanded))
      as [w out err|msg] eqn:Ho.
    + rewrite (Exec_waited host _ _ _ _ _ _ _ _ _ _ Hg Ho). cbn [snd].
      unfold delivered, command. cbn [Stdout Stderr].
      destruct (announced_frame host (expandVar host env cmd) expanded (prepared host env args st))
        as (_ & _ & Hs).
      change (streams (prepared host env args st)) with (streams st) in Hs.
      destruct stdout as [o|], stderr as [e|]; cbn; now rewrite ?Hs.
    + rewrite (Exec_not_started host _ _ _ _ _ _ _ _ Hg Ho). cbn.
      now destruct (announced_frame host (expandVar host env cmd) expanded
                      (prepared host env args st)) as (_ & _ & ->).
  - now rewrite (Exec_bad host _ _ _ _ _ _ _ Hg).
Qed.

(** The log [Exec] leaves. *)
Lemma Exec_logs env (stdout stderr : Writer) (cmd : string) args st :
  logs (Exec host env stdout stderr cmd args st).2 =
    match expandGlob host (expandVar host env <$> Sl.read (heap st) args) with
    | inr _ => logs st
    | inl expanded =>
        if Verbose host
        then logs st ++ [logLine host (expandVar host env cmd) expanded]
        else logs st
    end.
Proof.
  destruct (expandGlob host (expandVar host env <$> Sl.read (heap st) args))
    as [expanded|e] eqn:Hg.
  - assert (Hl : logs (announced host (expandVar host env cmd) expanded
                         (prepared host env args st))
                 = if Verbose host
                   then logs st ++ [logLine host (expandVar host env cmd) expanded]
                   else logs st)
      by (unfold announced; now destruct (Verbose host)).
    destruct (outcome host (command host env stdout stderr (expandVar host env cmd) expanded))
      as [w out err|msg] eqn:Ho.
    + rewrite (Exec_waited host _ _ _ _ _ _ _ _ _ _ Hg Ho). cbn [snd].
      unfold delivered. now rewrite !logs_write.
    + now rewrite (Exec_not_started host _ _ _ _ _ _ _ _ Hg Ho).
  - now rewrite (Exec_bad host _ _ _ _ _ _ _ Hg).
Qed.

End Returns.

(** X1. The exit status read from what [Exec] returns is 0 exactly when
    [Exec] returns no error, and lies between 1 and 255 otherwise: a failure
    never carries the status of a success. *)
Theorem Exec_error_status (host : Host) (env : gmap string string)
    (stdout stderr : Writer) (cmd : string) (args : Slice) (st : State) :
  0 <= ExitStatus (Exec host env stdout stderr cmd args st).1.2 <= 255
  /\ (ExitStatus (Exec host env stdout stderr cmd args st).1.2 = 0
      <-> (Exec host env stdout stderr cmd args st).1.2 = None).
Proof.
  rewrite Exec_result.
  destruct (expandGlob host _) as [expanded|e]; [|cbn; split; [lia | split; discriminate]].
  destruct (outcome host _) as [w out err|msg]; [|cbn; split; [lia | split; discriminate]].
  destruct (WaitStatus.ExitStatus w =? 0) eqn:Hz; [cbn; split; [lia | tauto]|].
  apply Z.eqb_neq in Hz.
  destruct (WaitStatus.Exited w) eqn:He; [|cbn; split; [lia | split; discriminate]].
  cbn. pose proof (WaitFacts.ExitStatus_range w He).
  split; [lia | split; [contradiction | discriminate]].
Qed.

(** X2. A command that was started and then terminated without exiting, as
    by a signal, makes [Exec] return [ran = false] and the error of a
    command that did not run, whose message embeds the text of the process
    state; the exit status read from that error is 1. *)
Theorem Exec_signaled (host : Host) (env : gmap string string)
    (stdout stderr : Writer) (cmd : string) (args : Slice) (st : State)
    (expanded : list string) (w : Z) (out err : string) :
  expandGlob host (expandVar host env <$> Sl.read (heap st) args) = inl expanded ->
  outcome host (command host env stdout stderr (expandVar host env cmd) expanded)
    = Waited w out err ->
  WaitStatus.Exited w = false ->
  (Exec host env stdout stderr cmd args st).1 =
    (false, Some (fmt_Errorf (launchMessage (expandVar host env cmd)
                                (expandVar host env <$> Sl.read (heap st) args)
                                (ProcessState_String host w))))
  /\ ExitStatus (Exec host env stdout stderr cmd args st).1.2 = 1.
Proof.
  intros Hg Ho He.
  rewrite (Exec_waited host _ _ _ _ _ _ _ _ _ _ Hg Ho).
  unfold WaitStatus.ExitStatus. rewrite He. split; reflexivity.
Qed.

Lemma Exec_signaled_witness :
  (Exec Demo.host ∅ os_Stdout os_Stderr "sleeper" Demo.args Demo.state).1.1 = false
  /\ ExitStatus (Exec Demo.host ∅ os_Stdout os_Stderr "sleeper" Demo.args Demo.state).1.2 = 1.
Proof.
  destruct (Exec_signaled Demo.host ∅ os_Stdout os_Stderr "sleeper" Demo.args Demo.state
              ["baz"; "a.go"; "b.go"; "*.xyz"] (WaitStatus.ofSignal 9) EmptyString EmptyString)
    as [H1 H2].
  - vm_compute. reflexivity.
  - vm_compute. reflexivity.
  - vm_compute. reflexivity.
  - split; [now rewrite H1 | exact H2].
Defined.

(** [RunWith] returns the error of [Exec] and leaves its state. *)
Lemma RunWith_Exec (host : Host) (env : gmap string string) (cmd : string)
    (args : Slice) (st : State) :
  RunWith host env cmd args st =
    ((Exec host env (if Verbose host then os_Stdout else None) os_Stderr cmd args st).1.2,
     (Exec host env (if Verbose host then os_Stdout else None) os_Stderr cmd args st).2).
Proof. unfold RunWith. now rewrite mbind_run. Qed.

(** X3. [Run] returns no error exactly when every expanded argument is a
    well-formed pattern and the command, started on the expanded
    arguments, exits with status 0. *)
Theorem Run_nil_iff (host : Host) (cmd : string) (args : Slice) (st : State) :
  (Run host cmd args st).1 = None <->
  exists (expanded : list string) (w : Z) (out err : string),
    expandGlob host (expandVar host ∅ <$> Sl.read (heap st) args) = inl expanded
    /\ outcome host (command host ∅ None None (expandVar host ∅ cmd) expanded)
       = Waited w out err
    /\ WaitStatus.ExitStatus w = 0.
Proof.
  unfold Run. rewrite RunWith_Exec. cbn [fst].
  rewrite Exec_result.
  destruct (expandGlob host _) as [expanded|e] eqn:Hg.
  - rewrite (outcome_streams host ∅ _ _ None None).
    destruct (outcome host _) as [w out err|msg] eqn:Ho.
    + destruct (WaitStatus.ExitStatus w =? 0) eqn:Hz.
      * apply Z.eqb_eq in Hz. split; [|reflexivity].
        intros _. exists expanded, w, out, err. auto.
      * apply Z.eqb_neq in Hz. split.
        -- destruct (WaitStatus.Exited w); discriminate.
        -- intros (x & w' & o & e' & [= <-] & Ho' & Hw).
           rewrite Ho in Ho'. injection Ho' as <- <- <-. contradiction.
    + split; [discriminate|].
      intros (x & w' & o & e' & [= <-] & Ho' & _). rewrite Ho in Ho'. discriminate.
  - split; [discriminate|]. intros (x & w' & o & e' & Hx & _). discriminate.
Qed.

(** ** Where the output goes *)


Lemma RunV_RunWithV (host : Host) (cmd : string) (args : Slice) :
  RunV host cmd args = RunWithV host ∅ cmd args.
Proof. reflexivity. Qed.





(** X6. In verbose mode [Exec] logs one line before it runs a command: the
    word [exec:], the expanded command name and the glob-expanded arguments,
    each quoted. It logs nothing when the mode is off, and nothing when a
    pattern is malformed. *)
Theorem Exec_logs_command_line (host : Host) (env : gmap string string)
    (stdout stderr : Writer) (cmd : string) (args : Slice) (st : State) :
  (Verbose host = false -> logs (Exec host env stdout stderr cmd args st).2 = logs st)
  /\ (forall e, expandGlob host (expandVar host env <$> Sl.read (heap st) args) = inr e ->
        logs (Exec host env stdout stderr cmd args st).2 = logs st)
  /\ (forall expanded,
        Verbose host = true ->
        expandGlob host (expandVar host env <$> Sl.read (heap st) args) = inl expanded ->
        logs (Exec host env stdout stderr cmd args st).2 =
          logs st ++ ["exec: " +:+ expandVar host env cmd +:+ " "
                      +:+ Str.Join (Quote host <$> expanded) " "]).
Proof.
  rewrite Exec_logs. split; [|split].
  - intros ->. now destruct (expandGlob host _).
  - now intros e ->.
  - intros expanded -> ->. reflexivity.
Qed.

Lemma Exec_logs_command_line_witness :
  logs (Exec Demo.loud ∅ None None "echo" Demo.args Demo.state).2
  = ["exec: echo " +:+ dquote +:+ "baz" +:+ dquote +:+ " "
     +:+ dquote +:+ "a.go" +:+ dquote +:+ " "
     +:+ dquote +:+ "b.go" +:+ dquote +:+ " "
     +:+ dquote +:+ "*.xyz" +:+ dquote]
  /\ logs (Exec Demo.host ∅ None None "echo" Demo.args Demo.state).2 = [].
Proof.
  split.
  - rewrite (proj2 (proj2 (Exec_logs_command_line Demo.loud ∅ None None "echo"
                             Demo.args Demo.state))
               ["baz"; "a.go"; "b.go"; "*.xyz"] eq_refl).
    + vm_compute. reflexivity.
    + vm_compute. reflexivity.
  - exact (proj1 (Exec_logs_command_line Demo.host ∅ None None "echo"
                    Demo.args Demo.state) eq_refl).
Defined.

(** ** The environment of the command *)

Lemma foldl_snoc_map {A B : Type} (g : B -> A) (l : list B) (init : list A) :
  foldl (fun acc x => acc ++ [g x]) init l = init ++ (g <$> l).
Proof.
  revert init; induction l as [|x l IH]; intros init; simpl.
  - now rewrite app_nil_r.
  - rewrite IH, <- app_assoc. reflexivity.
Qed.

(** X7. The command gets the whole environment of the process followed by
    one [key=value] entry for each override, so that every override comes
    after every inherited variable; without overrides it gets the
    environment of the process as it is. *)
Theorem command_environment (host : Host) (env : gmap string string)
    (stdout stderr : Writer) (cmd : string) (expanded : list string) :
  CmdEnv (command host env stdout stderr cmd expanded) = os_Environ host ++ overrides env
  /\ (forall k v, env !! k = Some v -> (k +:+ "=" +:+ v) ∈ overrides env)
  /\ List.length (CmdEnv (command host env stdout stderr cmd expanded))
     = (size (environ host) + size env)%nat
  /\ CmdEnv (command host ∅ stdout stderr cmd expanded) = os_Environ host.
Proof.
  assert (H : forall e, CmdEnv (command host e stdout stderr cmd expanded)
                        = os_Environ host ++ overrides e).
  { intros e. unfold command, overrides. cbn [CmdEnv]. apply foldl_snoc_map. }
  split; [apply H|]. split; [|split].
  - intros k v Hkv. unfold overrides.
    apply (list_elem_of_fmap_2 (fun kv : string * string => kv.1 +:+ "=" +:+ kv.2)
             (map_to_list env) (k, v)).
    now apply elem_of_map_to_list.
  - rewrite H, length_app. unfold os_Environ, overrides.
    now rewrite !length_fmap, !length_map_to_list.
  - rewrite H. unfold overrides. rewrite map_to_list_empty. apply app_nil_r.
Qed.

Lemma command_environment_witness :
  ("FOO=bar" : string) ∈ overrides {[ "FOO" := "bar" ]}.
Proof.
  exact (proj1 (proj2 (command_environment Demo.host {[ "FOO" := "bar" ]} None None
                         "ls" [])) "FOO" "bar" eq_refl).
Defined.

(** ** More on glob expansion *)

Lemma expandGlobFrom_inr (host : Host) (value result : list string) (e : error) :
  expandGlobFrom host result value = inr e ->
  e = ErrBadPattern /\ exists v, In v value /\ Glob host v = None.
Proof.
  revert result; induction value as [|u value IH]; intros result H; [discriminate|].
  simpl in H. destruct (Glob host u) as [matches|] eqn:Hu.
  - destruct (0 <? List.length matches)%nat;
      destruct (IH _ H) as (He & v & Hin & Hv); (split; [exact He|]);
      exists v; (split; [now right | exact Hv]).
  - injection H as <-. split; [reflexivity|]. exists u. split; [now left | exact Hu].
Qed.

Lemma expandGlobFrom_length (host : Host) (value result r : list string) :
  expandGlobFrom host result value = inl r ->
  (List.length result + List.length value <= List.length r)%nat.
Proof.
  revert result; induction value as [|u value IH]; intros result H; simpl in *.
  - injection H as <-. lia.
  - destruct (Glob host u) as [matches|]; [|discriminate].
    destruct (0 <? List.length matches)%nat eqn:Hm.
    + apply Nat.ltb_lt in Hm. apply IH in H. rewrite length_app in H. lia.
    + apply IH in H. rewrite length_app in H. simpl in H. lia.
Qed.

(** X8. [expandGlob] fails exactly when one of the arguments is a malformed
    pattern, and the error is then [ErrBadPattern]. *)
Theorem expandGlob_error_iff (host : Host) (value : list string) (e : error) :
  expandGlob host value = inr e <->
  e = ErrBadPattern /\ exists v, In v value /\ Glob host v = None.
Proof.
  split.
  - apply expandGlobFrom_inr.
  - intros (-> & v & Hin & Hv). now apply (expandGlobFrom_bad host value [] v).
Qed.

(** X9. Glob expansion never shortens the argument list: what [expandGlob]
    returns has at least as many elements as it was given; and a list of
    which no element matches anything is returned as it is. *)
Theorem expandGlob_never_shrinks (host : Host) (value r : list string) :
  expandGlob host value = inl r ->
  (List.length value <= List.length r)%nat
  /\ (forallb (fun v => bool_decide (Glob host v = Some [])) value = true -> r = value).
Proof.
  intros H. split.
  - apply (expandGlobFrom_length host value [] r) in H. simpl in H. exact H.
  - intros Hall.
    assert (Hwf : wellFormed host value = true).
    { unfold wellFormed. apply forallb_forall. intros v Hv.
      rewrite forallb_forall in Hall. specialize (Hall v Hv).
      apply bool_decide_eq_true in Hall. apply bool_decide_eq_true.
      rewrite Hall. eauto. }
    pose proof (expandGlobFrom_ok host value [] Hwf) as Hok. simpl in Hok.
    unfold expandGlob in H. rewrite Hok in H. injection H as <-.
    clear Hwf Hok. induction value as [|v value IH]; [reflexivity|].
    simpl in Hall. apply andb_true_iff in Hall as [Hv Hall].
    apply bool_decide_eq_true in Hv.
    change (List.concat (globArg host <$> v :: value))
      with (globArg host v ++ List.concat (globArg host <$> value)).
    rewrite (IH Hall). unfold globArg. now rewrite Hv.
Qed.

Lemma expandGlob_never_shrinks_witness :
  (List.length ["*.go"; "*.xyz"] <= List.length ["a.go"; "b.go"; "*.xyz"])%nat.
Proof.
  refine (proj1 (expandGlob_never_shrinks Demo.host ["*.go"; "*.xyz"]
                   ["a.go"; "b.go"; "*.xyz"] _)).
  reflexivity.
Defined.

(** ** What a call does and does not touch *)

(** X10. A call of [Exec] hands at most one command to the operating
    system: exactly one, after those already recorded, when every expanded
    argument is a well-formed pattern, and none otherwise. *)
Theorem Exec_at_most_one_command (host : Host) (env : gmap string string)
    (stdout stderr : Writer) (cmd : string) (args : Slice) (st : State) :
  execs (Exec host env stdout stderr cmd args st).2 =
    execs st ++
    match expandGlob host (expandVar host env <$> Sl.read (heap st) args) with
    | inl expanded => [command host env stdout stderr (expandVar host env cmd) expanded]
    | inr _ => []
    end.
Proof.
  destruct (expandGlob host _) as [expanded|e] eqn:Hg.
  - now apply Exec_execs.
  - rewrite (Exec_bad host _ _ _ _ _ _ _ Hg). cbn. now rewrite app_nil_r.
Qed.

(** X11. Called without arguments, [Exec] leaves the heap as it is and runs
    the command with its expanded name as only argument. *)
Theorem Exec_no_arguments (host : Host) (env : gmap string string)
    (stdout stderr : Writer) (cmd : string) (args : Slice) (st : State) :
  len args = 0%nat ->
  heap (Exec host env stdout stderr cmd args st).2 = heap st
  /\ execs (Exec host env stdout stderr cmd args st).2 =
       execs st ++ [command host env stdout stderr (expandVar host env cmd) []]
  /\ Args (command host env stdout stderr (expandVar host env cmd) [])
     = [expandVar host env cmd].
Proof.
  intros Hlen. split; [|split; [|reflexivity]].
  - rewrite Exec_heap. unfold expandedHeap. rewrite Hlen.
    apply alter_id. intros a _. apply ArrayFacts.mapRange_0.
  - apply Exec_execs. unfold Sl.read. now rewrite Hlen.
Qed.

Lemma Exec_no_arguments_witness :
  Args <$> execs (Exec Demo.host ∅ None None "$FOO"
                    {| base := 0; off := 0; len := 0; cap := 0 |} Demo.empty).2
  = [["baz"]].
Proof.
  rewrite (proj1 (proj2 (Exec_no_arguments Demo.host ∅ None None "$FOO"
                           {| base := 0; off := 0; len := 0; cap := 0 |} Demo.empty eq_refl))).
  reflexivity.
Defined.

Lemma expandVar_plain (host : Host) (env : gmap string string) (l : list string) :
  forallb noDollar l = true -> expandVar host env <$> l = l.
Proof.
  induction l as [|a l IH]; intros H; [reflexivity|].
  simpl in H. apply andb_true_iff in H as [Ha H].
  rewrite fmap_cons, (IH H). unfold expandVar.
  now rewrite (EnvFacts.Expand_noDollar _ _ Ha).
Qed.

Lemma mapRange_fixed (f : string -> string) (i n : nat) (a : list string) :
  f <$> take n (drop i a) = take n (drop i a) -> mapRange f i n a = a.
Proof.
  intros H. unfold mapRange. rewrite H.
  rewrite <- (drop_drop a n i), take_drop. apply take_drop.
Qed.

Lemma Exec_heap_plain (host : Host) (env : gmap string string)
    (stdout stderr : Writer) (cmd : string) (args : Slice) (st : State) :
  forallb noDollar (Sl.read (heap st) args) = true ->
  heap (Exec host env stdout stderr cmd args st).2 = heap st.
Proof.
  intros H. rewrite Exec_heap. unfold expandedHeap.
  apply alter_id. intros a Ha. apply mapRange_fixed.
  unfold Sl.read, Sl.array in H. rewrite Ha in H. simpl in H.
  now apply expandVar_plain.
Qed.

(** X12. Arguments in which no dollar sign occurs are not rewritten: when
    that is so of every argument, [Exec] leaves the heap as it found it. *)
Theorem Exec_plain_arguments_untouched (host : Host) (env : gmap string string)
    (stdout stderr : Writer) (cmd : string) (args : Slice) (st : State) :
  forallb noDollar (Sl.read (heap st) args) = true ->
  heap (Exec host env stdout stderr cmd args st).2 = heap st
  /\ Sl.read (heap (Exec host env stdout stderr cmd args st).2) args
     = Sl.read (heap st) args.
Proof.
  intros H. split.
  - now apply Exec_heap_plain.
  - now rewrite (Exec_heap_plain host env stdout stderr cmd args st H).
Qed.

Lemma Exec_plain_arguments_untouched_witness :
  heap (Exec Demo.host ∅ None None "echo"
          (Sl.make ["-l"; "*.go"] Demo.empty).1 (Sl.make ["-l"; "*.go"] Demo.empty).2).2
  = heap (Sl.make ["-l"; "*.go"] Demo.empty).2.
Proof.
  apply (Exec_plain_arguments_untouched Demo.host ∅ None None "echo"
           (Sl.make ["-l"; "*.go"] Demo.empty).1 (Sl.make ["-l"; "*.go"] Demo.empty).2).
  vm_compute. reflexivity.
Defined.



(** ** Closures *)

Section Closures.

Context (host : Host).

(** [append] gives a slice that shows the old elements followed by the new
    ones, and touches nothing but the heap. *)
Lemma append_read (s : Slice) (xs : list string) (st : State) :
  sliceOk (heap st) s = true ->
  Sl.read (heap (Sl.append s xs st).2) (Sl.append s xs st).1 = Sl.read (heap st) s ++ xs
  /\ execs (Sl.append s xs st).2 = execs st
  /\ streams (Sl.append s xs st).2 = streams st
  /\ logs (Sl.append s xs st).2 = logs st.
Proof.
  intros Hok. unfold Sl.append.
  destruct (len s + List.length xs <=? cap s)%nat eqn:Hcap.
  - apply Nat.leb_le in Hcap. rewrite mbind_run.
    unfold modify, mret, M_ret, ret. cbn [fst snd].
    split; [|now destruct st].
    unfold sliceOk in Hok. unfold Sl.read, Sl.array. cbn [heap setHeap base off len].
    rewrite lookup_alter_eq.
    destruct (heap st !! base s) as [a|]; [|discriminate]. simpl.
    apply andb_true_iff in Hok as [Ha Hl].
    apply Nat.leb_le in Ha. apply Nat.leb_le in Hl.
    apply list_eq. intros j.
    destruct (decide (j < len s)%nat) as [Hj|Hj].
    + rewrite lookup_take_lt, lookup_drop by lia.
      rewrite list_lookup_inserts_lt by lia.
      rewrite lookup_app_l by (rewrite length_take, length_drop; lia).
      now rewrite lookup_take_lt, lookup_drop by lia.
    + rewrite lookup_app_r by (rewrite length_take, length_drop; lia).
      rewrite length_take, length_drop.
      replace (len s `min` (List.length a - off s))%nat with (len s) by lia.
      destruct (decide (j < len s + List.length xs)%nat) as [Hk|Hk].
      * rewrite lookup_take_lt, lookup_drop by lia.
        rewrite list_lookup_inserts by lia. f_equal. lia.
      * rewrite lookup_take_ge by lia. symmetry.
        apply lookup_ge_None_2. lia.
  - rewrite mbind_run. unfold Sl.elems, gets, Sl.make. cbn [fst snd].
    split; [|now destruct st].
    unfold Sl.read at 1, Sl.array. cbn [heap setHeap base off len].
    rewrite lookup_insert_eq. simpl. apply take_ge. lia.
Qed.

(** What the closure of [RunCmd] comes to. *)
Lemma RunCmd_Run (cmd : string) (args args2 : Slice) (st : State) :
  RunCmd host cmd args args2 st =
    Run host cmd (Sl.append args (Sl.read (heap st) args2) st).1
      (Sl.append args (Sl.read (heap st) args2) st).2.
Proof.
  unfold RunCmd. rewrite mbind_run. unfold Sl.elems at 1, gets. cbn [fst snd].
  now rewrite mbind_run.
Qed.

Lemma OutCmd_Output (cmd : string) (args args2 : Slice) (st : State) :
  OutCmd host cmd args args2 st =
    Output host cmd (Sl.append args (Sl.read (heap st) args2) st).1
      (Sl.append args (Sl.read (heap st) args2) st).2.
Proof.
  unfold OutCmd. rewrite mbind_run. unfold Sl.elems at 1, gets. cbn [fst snd].
  now rewrite mbind_run.
Qed.

End Closures.

(** X14. The closure [RunCmd] returns runs the command on the baked-in
    arguments followed by the arguments it is called with: the command
    handed to the operating system has the expanded name and the glob
    expansion of the expansions of both, in that order. *)
Theorem RunCmd_appends_arguments (host : Host) (cmd : string) (args args2 : Slice)
    (st : State) (expanded : list string) :
  sliceOk (heap st) args = true ->
  expandGlob host (expandVar host ∅ <$> (Sl.read (heap st) args ++ Sl.read (heap st) args2))
    = inl expanded ->
  execs (RunCmd host cmd args args2 st).2 =
    execs st ++
    [command host ∅ (if Verbose host then os_Stdout else None) os_Stderr
       (expandVar host ∅ cmd) expanded].
Proof.
  intros Hok Hg. rewrite RunCmd_Run. unfold Run. rewrite RunWith_Exec. cbn [snd].
  destruct (append_read args (Sl.read (heap st) args2) st Hok) as (Hr & He & _).
  rewrite <- Hr in Hg. rewrite (Exec_execs host _ _ _ _ _ _ _ Hg). now rewrite He.
Qed.

Lemma RunCmd_appends_arguments_witness :
  Args <$> execs (RunCmd Demo.host "echo" Demo.args
                    (Sl.make ["-n"] Demo.state).1 (Sl.make ["-n"] Demo.state).2).2
  = [["echo"; "baz"; "a.go"; "b.go"; "*.xyz"; "-n"]].
Proof.
  rewrite (RunCmd_appends_arguments Demo.host "echo" Demo.args
             (Sl.make ["-n"] Demo.state).1 (Sl.make ["-n"] Demo.state).2
             ["baz"; "a.go"; "b.go"; "*.xyz"; "-n"]).
  - reflexivity.
  - reflexivity.
  - vm_compute. reflexivity.
Defined.

(** X15. The closure [OutCmd] returns runs the command on the baked-in
    arguments followed by the arguments it is called with, and returns what
    that command wrote to its standard output without one trailing
    newline. *)
Theorem OutCmd_captures (host : Host) (cmd : string) (args args2 : Slice)
    (st : State) (expanded : list string) (w : Z) (out err : string) :
  sliceOk (heap st) args = true ->
  expandGlob host (expandVar host ∅ <$> (Sl.read (heap st) args ++ Sl.read (heap st) args2))
    = inl expanded ->
  outcome host (command host ∅ None None (expandVar host ∅ cmd) expanded)
    = Waited w out err ->
  (OutCmd host cmd args args2 st).1.1 = Str.TrimSuffix out newline.
Proof.
  intros Hok Hg Ho. rewrite OutCmd_Output.
  destruct (append_read args (Sl.read (heap st) args2) st Hok) as (Hr & _).
  rewrite <- Hr in Hg.
  exact (OutputWith_captured host ∅ cmd _ _ expanded w out err Hg Ho).
Qed.

Lemma OutCmd_captures_witness :
  (OutCmd Demo.host "echo" Demo.args
     (Sl.make ["-n"] Demo.state).1 (Sl.make ["-n"] Demo.state).2).1.1
  = "baz a.go b.go *.xyz -n".
Proof.
  rewrite (OutCmd_captures Demo.host "echo" Demo.args
             (Sl.make ["-n"] Demo.state).1 (Sl.make ["-n"] Demo.state).2
             ["baz"; "a.go"; "b.go"; "*.xyz"; "-n"]
             (WaitStatus.ofExit 0) ("baz a.go b.go *.xyz -n" +:+ newline) EmptyString).
  - apply StrFacts.TrimSuffix_app.
  - reflexivity.
  - reflexivity.
  - vm_compute. reflexivity.
Defined.

(** ** More on captured output *)

(** [OutputWith] is [Exec] on a new buffer, whose content it trims. *)
Lemma OutputWith_Exec (host : Host) (env : gmap string string) (cmd : string)
    (args : Slice) (st : State) :
  OutputWith host env cmd args st =
    ((Str.TrimSuffix
        (default EmptyString
           (streams (Exec host env (Some (newBuffer st).1) os_Stderr cmd args (newBuffer st).2).2
              !! (newBuffer st).1))
        newline,
      (Exec host env (Some (newBuffer st).1) os_Stderr cmd args (newBuffer st).2).1.2),
     (Exec host env (Some (newBuffer st).1) os_Stderr cmd args (newBuffer st).2).2).
Proof. unfold OutputWith. now rewrite !mbind_run. Qed.

(** X16. When a pattern is malformed or the command cannot be started,
    [OutputWith], and so [Output], returns the empty string together with
    an error. *)
Theorem Output_empty_on_failure (host : Host) (env : gmap string string)
    (cmd : string) (args : Slice) (st : State) :
  (exists e, expandGlob host (expandVar host env <$> Sl.read (heap st) args) = inr e)
  \/ (exists expanded msg,
        expandGlob host (expandVar host env <$> Sl.read (heap st) args) = inl expanded
        /\ outcome host (command host env None None (expandVar host env cmd) expanded)
           = StartFailed msg) ->
  (OutputWith host env cmd args st).1.1 = EmptyString
  /\ is_Some (OutputWith host env cmd args st).1.2
  /\ (env = ∅ -> (Output host cmd args st).1.1 = EmptyString).
Proof.
  intros H.
  assert (Hout : (OutputWith host env cmd args st).1.1 = EmptyString
                 /\ is_Some (OutputWith host env cmd args st).1.2).
  { rewrite OutputWith_Exec. cbn [fst snd].
    destruct (newBuffer_fresh st) as (_ & _ & Hb & Hh).
    rewrite Exec_streams, Exec_result, Hh.
    destruct H as [(e & ->)|(expanded & msg & -> & Ho)].
    - rewrite Hb. split; [reflexivity | eauto].
    - rewrite (outcome_streams host env (Some (newBuffer st).1) os_Stderr None None), Ho.
      rewrite Hb. split; [reflexivity | eauto]. }
  destruct Hout as [H1 H2]. split; [exact H1|]. split; [exact H2|].
  intros ->. exact H1.
Qed.

Lemma Output_empty_on_failure_witness :
  (Output Demo.host "true" Demo.badArgs Demo.badState).1.1 = EmptyString
  /\ (Output Demo.host "/no/such" Demo.args Demo.state).1.1 = EmptyString.
Proof.
  split.
  - refine (proj2 (proj2 (Output_empty_on_failure Demo.host ∅ "true"
                            Demo.badArgs Demo.badState _)) eq_refl).
    left. exists ErrBadPattern. vm_compute. reflexivity.
  - refine (proj2 (proj2 (Output_empty_on_failure Demo.host ∅ "/no/such"
                            Demo.args Demo.state _)) eq_refl).
    right. exists ["baz"; "a.go"; "b.go"; "*.xyz"],
             "exec: /no/such: executable file not found in $PATH".
    split; vm_compute; reflexivity.
Defined.

(** X17. [OutputWith], and so [Output], keeps the standard output of the
    command to itself: whatever happens, [os.Stdout] has received nothing
    when it returns. *)
Theorem Output_leaves_stdout (host : Host) (env : gmap string string)
    (cmd : string) (args : Slice) (st : State) :
  streams (OutputWith host env cmd args st).2 !! 1%nat = streams st !! 1%nat
  /\ streams (Output host cmd args st).2 !! 1%nat = streams st !! 1%nat.
Proof.
  assert (H : forall e, streams (OutputWith host e cmd args st).2 !! 1%nat
                        = streams st !! 1%nat).
  { intros e. rewrite OutputWith_Exec. cbn [snd].
    destruct (newBuffer_fresh st) as (_ & Hb1 & _ & _).
    assert (H0 : streams (newBuffer st).2 !! 1%nat = streams st !! 1%nat).
    { unfold newBuffer in *. cbn [fst snd streams setStreams] in *.
      now rewrite lookup_insert_ne. }
    rewrite Exec_streams.
    destruct (expandGlob host _) as [expanded|x]; [|exact H0].
    destruct (outcome host _) as [w out err|msg]; [|exact H0].
    cbn. rewrite lookup_insert_ne by discriminate.
    now rewrite lookup_insert_ne. }
  split; [apply H | apply (H ∅)].
Qed.


(** ** The two classifications together *)

(** X19. On an error about which [CmdRan] says that the command ran,
    [ExitStatus] is the exit status of a process, a number from 0 to 255. *)
Theorem CmdRan_ExitStatus_byte (err : option error) :
  CmdRan err = true -> 0 <= ExitStatus err <= 255.
Proof.
  intros H. apply CmdRan_true_iff in H as [->|(w & -> & Hw)].
  - simpl. lia.
  - simpl. now apply WaitFacts.ExitStatus_range.
Qed.

Lemma CmdRan_ExitStatus_byte_witness :
  0 <= ExitStatus (Some (ExitError (WaitStatus.ofExit 42))) <= 255.
Proof.
  apply (CmdRan_ExitStatus_byte (Some (ExitError (WaitStatus.ofExit 42)))).
  reflexivity.
Defined.

(** ** Calling again *)

(** X20. When the expansions of the arguments hold no dollar sign, calling
    [Exec] again on the same slice runs the same command again: nothing is
    left to expand a second time. *)
Theorem Exec_twice_same_command (host : Host) (env : gmap string string)
    (stdout stderr : Writer) (cmd : string) (args : Slice) (st : State)
    (expanded : list string) :
  expandGlob host (expandVar host env <$> Sl.read (heap st) args) = inl expanded ->
  forallb noDollar (expandVar host env <$> Sl.read (heap st) args) = true ->
  execs (Exec host env stdout stderr cmd args
           (Exec host env stdout stderr cmd args st).2).2 =
    execs st ++
    [command host env stdout stderr (expandVar host env cmd) expanded;
     command host env stdout stderr (expandVar host env cmd) expanded]
  /\ heap (Exec host env stdout stderr cmd args
             (Exec host env stdout stderr cmd args st).2).2
     = heap (Exec host env stdout stderr cmd args st).2.
Proof.
  intros Hg Hplain.
  assert (Hread : Sl.read (heap (Exec host env stdout stderr cmd args st).2) args
                  = expandVar host env <$> Sl.read (heap st) args)
    by (rewrite Exec_heap; apply read_expandedHeap).
  split.
  - rewrite (Exec_execs host env stdout stderr cmd args _ expanded).
    + rewrite (Exec_execs host _ _ _ _ _ _ _ Hg). now rewrite <- app_assoc.
    + rewrite Hread. now rewrite (expandVar_plain host env _ Hplain).
  - apply Exec_heap_plain. now rewrite Hread.
Qed.

Lemma Exec_twice_same_command_witness :
  Args <$> execs (Exec Demo.host ∅ None None "echo" Demo.args
                    (Exec Demo.host ∅ None None "echo" Demo.args Demo.state).2).2
  = [["echo"; "baz"; "a.go"; "b.go"; "*.xyz"]; ["echo"; "baz"; "a.go"; "b.go"; "*.xyz"]].
Proof.
  destruct (Exec_twice_same_command Demo.host ∅ None None "echo" Demo.args Demo.state
              ["baz"; "a.go"; "b.go"; "*.xyz"]) as [H _].
  - vm_compute. reflexivity.
  - vm_compute. reflexivity.
  - rewrite H. reflexivity.
Defined.

(** ** The arguments a closure is called with *)

(** X21. The closure [RunCmd] returns does not write through the slice it is
    called with: when that slice has an array of its own in the heap, other
    than the array of the baked-in arguments, its elements are the same
    after the call. *)
Theorem RunCmd_leaves_call_arguments (host : Host) (cmd : string)
    (args args2 : Slice) (st : State) :
  base args2 <> base args ->
  is_Some (heap st !! base args2) ->
  Sl.read (heap (RunCmd host cmd args args2 st).2) args2 = Sl.read (heap st) args2.
Proof.
  intros Hne Hin. rewrite RunCmd_Run. unfold Run. rewrite RunWith_heap.
  assert (Hfresh : fresh (dom (heap st)) <> base args2).
  { intros Hb. apply (is_fresh (dom (heap st))). rewrite Hb. now apply elem_of_dom. }
  unfold Sl.read, Sl.array. f_equal. f_equal. f_equal.
  unfold Sl.append.
  destruct (len args + List.length _ <=? cap args)%nat.
  - rewrite mbind_run. unfold modify, mret, M_ret, ret. cbn [fst snd].
    rewrite expandedHeap_other by exact Hne. cbn [heap setHeap].
    now rewrite lookup_alter_ne by (intros H; apply Hne; now symmetry).
  - rewrite mbind_run. unfold Sl.elems, gets, Sl.make. cbn [fst snd].
    rewrite expandedHeap_other by (cbn [base]; intros H; apply Hfresh; now symmetry).
    cbn [heap setHeap]. now rewrite lookup_insert_ne.
Qed.

Lemma RunCmd_leaves_call_arguments_witness :
  Sl.read (heap (RunCmd Demo.host "echo" Demo.args
                   (Sl.make ["$HOME"] Demo.state).1 (Sl.make ["$HOME"] Demo.state).2).2)
    (Sl.make ["$HOME"] Demo.state).1
  = ["$HOME"].
Proof.
  rewrite (RunCmd_leaves_call_arguments Demo.host "echo" Demo.args
             (Sl.make ["$HOME"] Demo.state).1 (Sl.make ["$HOME"] Demo.state).2).
  - reflexivity.
  - vm_compute. discriminate.
  - vm_compute. eauto.
Defined.
